(** * chart.py: synthetic purchase data and its box-plot rendering

    A shallow embedding of [src/chart.py].  The script has no input: it
    seeds a NumPy generator, draws three blocks of lognormal purchase
    amounts, builds a pandas data frame from them, and issues a fixed
    sequence of seaborn / matplotlib calls that ends in [savefig].

    Modelling conventions.
    - A float64 amount is an exact rational ([Q]); the rounding error of
      the floating-point operations is abstracted away, the decimal rounding
      done by the script ([round(amt, 2)], [.round(2)]) is not.
    - The NumPy generator is an interface ([Numpy.Generator]): a state type,
      the two ways of building a state (from a seed, from OS entropy) and one
      draw function per distribution, together with the range each documented
      distribution guarantees.  Array-valued draws ([size=n]) thread the state
      through [n] single draws.
    - pandas, seaborn and matplotlib calls are modelled by what they are
      documented to compute; the figure is a record that the calls update.
      The categorical x axis keeps the labels registered with it, the strip
      plot takes its jitter from the process-wide generator, and [set_ylim]
      widens an empty range as matplotlib does. *)

From Stdlib Require Import ZArith QArith Qround Qabs List String Ascii Bool Lia Lqa.
From Stdlib Require DecimalString.
From Stdlib Require Import Permutation Sorted.
Import ListNotations.

Set Implicit Arguments.

Local Open Scope Q_scope.

(* ------------------------------------------------------------------ *)
(** ** Decimal rounding *)

Module Rounding.

(** Round to the nearest integer, ties to the even one ([numpy.rint]). *)
Definition rint (x : Q) : Z :=
  let f := Qfloor x in
  match Qcompare (x - inject_Z f) (1 # 2) with
  | Lt => f
  | Gt => (f + 1)%Z
  | Eq => if Z.even f then f else (f + 1)%Z
  end.

Definition pow10 (ndigits : nat) : Z := (10 ^ Z.of_nat ndigits)%Z.

(** [round(x, ndigits)] on a NumPy scalar: scale, [rint], unscale. *)
Definition round (x : Q) (ndigits : nat) : Q :=
  inject_Z (rint (x * inject_Z (pow10 ndigits))) / inject_Z (pow10 ndigits).

End Rounding.

(* ------------------------------------------------------------------ *)
(** ** The NumPy random interface *)

Module Numpy.

(** What the script and pandas use of [numpy.random].  [seed_state] is
    [default_rng(seed=z)], [fresh_state] is [default_rng()] (state pulled
    from the operating system); [legacy_seed] / [legacy_global] are the
    [RandomState] that [DataFrame.sample] builds from [random_state=z] or,
    without one, takes from the process-wide generator; the process-wide
    generator is also the one behind [numpy.random.uniform]. *)
Record Generator : Type := {
  bitgen : Type;
  entropy : Type;
  seed_state : Z -> bitgen;
  fresh_state : entropy -> bitgen;
  lognormal1 : Q -> Q -> bitgen -> Q * bitgen;
  choice1 : list Z -> list Q -> bitgen -> Z * bitgen;
  uniform1 : Q -> Q -> bitgen -> Q * bitgen;
  legacy : Type;
  legacy_seed : Z -> legacy;
  legacy_global : entropy -> legacy;
  choice_without_replacement : nat -> nat -> legacy -> list nat;
  legacy_uniform1 : Q -> Q -> legacy -> Q * legacy;
  (* documented ranges *)
  lognormal1_pos : forall mu sigma g, 0 <= sigma -> 0 < fst (lognormal1 mu sigma g);
  choice1_in : forall a p g, a <> [] -> In (fst (choice1 a p g)) a;
  uniform1_range : forall lo hi g, lo < hi ->
      lo <= fst (uniform1 lo hi g) /\ fst (uniform1 lo hi g) < hi;
  choice_without_replacement_lt : forall n k s, (k <= n)%nat ->
      Forall (fun i => (i < n)%nat) (choice_without_replacement n k s);
  choice_without_replacement_length : forall n k s, (k <= n)%nat ->
      List.length (choice_without_replacement n k s) = k;
  choice_without_replacement_NoDup : forall n k s, (k <= n)%nat ->
      NoDup (choice_without_replacement n k s);
  legacy_uniform1_range : forall lo hi s, lo < hi ->
      lo <= fst (legacy_uniform1 lo hi s) /\ fst (legacy_uniform1 lo hi s) < hi
}.

Section Draws.
Variable G : Generator.

(** [default_rng(seed)] *)
Definition default_rng (seed : option Z) (e : entropy G) : bitgen G :=
  match seed with
  | Some z => seed_state G z
  | None => fresh_state G e
  end.

(** [size=n]: [n] successive draws from the same generator. *)
Fixpoint draws (A : Type) (step : bitgen G -> A * bitgen G) (n : nat)
    (g : bitgen G) : list A * bitgen G :=
  match n with
  | O => ([], g)
  | S k =>
      let (x, g1) := step g in
      let (xs, g2) := draws step k g1 in
      (x :: xs, g2)
  end.

Definition lognormal (mean sigma : Q) (size : nat) :=
  draws (lognormal1 G mean sigma) size.

Definition choice (a : list Z) (size : nat) (p : list Q) :=
  draws (choice1 G a p) size.

Definition uniform (low high : Q) (size : nat) :=
  draws (uniform1 G low high) size.

(** [numpy.random.uniform(low, high, size=n)] on the process-wide
    generator. *)
Fixpoint legacy_draws (A : Type) (step : legacy G -> A * legacy G) (n : nat)
    (s : legacy G) : list A * legacy G :=
  match n with
  | O => ([], s)
  | S k =>
      let (x, s1) := step s in
      let (xs, s2) := legacy_draws step k s1 in
      (x :: xs, s2)
  end.

Definition legacy_uniform (low high : Q) (size : nat) :=
  legacy_draws (legacy_uniform1 G low high) size.
End Draws.

(** Element-wise array arithmetic on arrays of one length. *)
Fixpoint map2 (A B C : Type) (f : A -> B -> C) (xs : list A) (ys : list B) : list C :=
  match xs, ys with
  | x :: xs', y :: ys' => f x y :: map2 f xs' ys'
  | _, _ => []
  end.

End Numpy.

(* ------------------------------------------------------------------ *)
(** ** pandas: the Series and DataFrame operations the script calls *)

Module Pandas.

Fixpoint insert (x : Q) (l : list Q) : list Q :=
  match l with
  | [] => [x]
  | y :: t => if Qle_bool x y then x :: l else y :: insert x t
  end.

Definition sort_values (xs : list Q) : list Q := fold_right insert [] xs.

(** [Series.quantile(q)], linear interpolation between the two closest
    ranks; [None] stands for the NaN of an empty series. *)
Definition quantile (q : Q) (xs : list Q) : option Q :=
  match sort_values xs with
  | [] => None
  | (v0 :: _) as s =>
      let pos := inject_Z (Z.of_nat (List.length s) - 1) * q in
      let lo := Qfloor pos in
      let a := nth (Z.to_nat lo) s v0 in
      let b := nth (S (Z.to_nat lo)) s a in
      Some (a + (b - a) * (pos - inject_Z lo))
  end.

(** [Series.median()]: the middle value, or the mean of the two middle
    values. *)
Definition median (xs : list Q) : option Q :=
  match sort_values xs with
  | [] => None
  | (v0 :: _) as s =>
      let len := List.length s in
      if Nat.even len
      then Some ((nth (len / 2 - 1) s v0 + nth (len / 2) s v0) / 2)
      else Some (nth (len / 2) s v0)
  end.

(** [Series.unique()]: the distinct values in order of first appearance. *)
Definition unique (keys : list string) : list string :=
  fold_left
    (fun seen k => if existsb (String.eqb k) seen then seen else seen ++ [k])
    keys [].

Fixpoint insert_key (k : string) (l : list string) : list string :=
  match l with
  | [] => [k]
  | y :: t => if String.leb k y then k :: l else y :: insert_key k t
  end.

Definition sort_keys (ks : list string) : list string := fold_right insert_key [] ks.

(** [df.groupby(key)[col]]: one group per distinct key; with the default
    [sort=True] the groups come in sorted key order. *)
Definition groupby (rows : list (string * Q)) : list (string * list Q) :=
  map
    (fun k => (k, map snd (filter (fun r => String.eqb (fst r) k) rows)))
    (sort_keys (unique (map fst rows))).

(** [.median()] of every group, a Series indexed by the group keys. *)
Definition groupby_median (rows : list (string * Q)) : list (string * Q) :=
  flat_map
    (fun g => match median (snd g) with Some m => [(fst g, m)] | None => [] end)
    (groupby rows).

(** [Series.round(decimals)] *)
Definition series_round (decimals : nat) (s : list (string * Q)) : list (string * Q) :=
  map (fun kv => (fst kv, Rounding.round (snd kv) decimals)) s.

(** [df.sample(frac=..., random_state=...)]: [round(frac * len)] rows
    chosen without replacement by a legacy generator. *)
Definition sample (G : Numpy.Generator) (A : Type) (frac : Q) (random_state : option Z)
    (e : Numpy.entropy G) (rows : list A) : list A :=
  let len := List.length rows in
  let k := Z.to_nat (Rounding.rint (frac * inject_Z (Z.of_nat len))) in
  let st := match random_state with
            | Some z => Numpy.legacy_seed G z
            | None => Numpy.legacy_global G e
            end in
  flat_map
    (fun i => match nth_error rows i with Some r => [r] | None => [] end)
    (Numpy.choice_without_replacement G len k st).

End Pandas.

(* ------------------------------------------------------------------ *)
(** ** matplotlib: the figure, its one axes, and [savefig] *)

Module Matplotlib.

Record Box : Type := {
  box_x : nat;              (* position on the categorical axis *)
  box_label : string;       (* the category drawn there *)
  box_data : list Q;
  box_median : option Q     (* the median line *)
}.

Record Text : Type := { text_x : nat; text_y : Q; text_s : string }.

(** The axes.  [categories] is the unit mapping of the categorical x
    axis: the labels registered so far, the [i]-th of them at position [i]. *)
Record Axes : Type := {
  categories : list string;
  boxes : list Box;
  points : list (Q * Q);
  title : string;
  xlabel : string;
  ylabel : string;
  ylim : Q * Q;
  texts : list Text
}.

Definition new_axes : Axes :=
  {| categories := []; boxes := []; points := []; title := ""; xlabel := "";
     ylabel := ""; ylim := (0, 1); texts := [] |}.

Definition set_title (s : string) (ax : Axes) : Axes :=
  {| categories := categories ax; boxes := boxes ax; points := points ax; title := s;
     xlabel := xlabel ax; ylabel := ylabel ax; ylim := ylim ax; texts := texts ax |}.

Definition set_xlabel (s : string) (ax : Axes) : Axes :=
  {| categories := categories ax; boxes := boxes ax; points := points ax;
     title := title ax; xlabel := s; ylabel := ylabel ax; ylim := ylim ax;
     texts := texts ax |}.

Definition set_ylabel (s : string) (ax : Axes) : Axes :=
  {| categories := categories ax; boxes := boxes ax; points := points ax;
     title := title ax; xlabel := xlabel ax; ylabel := s; ylim := ylim ax;
     texts := texts ax |}.

(** [matplotlib.transforms.nonsingular(vmin, vmax, expander, tiny)] on
    finite bounds: a range that is empty, or tiny next to its endpoints, is
    widened; the result is in increasing order. *)
Definition float_tiny : Q := 1 # (2 ^ 1022).

Definition nonsingular (expander tiny vmin vmax : Q) : Q * Q :=
  let swapped := negb (Qle_bool vmin vmax) in
  let lo := if swapped then vmax else vmin in
  let hi := if swapped then vmin else vmax in
  let maxabsvalue := if Qle_bool (Qabs lo) (Qabs hi) then Qabs hi else Qabs lo in
  if negb (Qle_bool ((1000000 / tiny) * float_tiny) maxabsvalue)
  then (- expander, expander)
  else if Qle_bool (hi - lo) (maxabsvalue * tiny)
  then if Qeq_bool hi 0 && Qeq_bool lo 0
       then (- expander, expander)
       else (lo - expander * Qabs lo, hi + expander * Qabs hi)
  else (lo, hi).

(** The view interval [set_ylim(v0, v1)] ends up with on a linear axis:
    the locator's [nonsingular] (expander 0.05), then the two bounds put back
    in the order they were given. *)
Definition view_limits (v0 v1 : Q) : Q * Q :=
  let reverse := negb (Qle_bool v0 v1) in
  let (a, b) := nonsingular (5 # 100) (1 # 1000000000000000) v0 v1 in
  let lo := if Qle_bool a b then a else b in
  let hi := if Qle_bool a b then b else a in
  if reverse then (hi, lo) else (lo, hi).

(** With these settings a range whose larger endpoint is below this bound
    counts as empty. *)
Definition singular_bound : Q := (1000000 / (1 # 1000000000000000)) * float_tiny.

(** [ax.set_ylim(bottom, top)] *)
Definition set_ylim (bottom top : Q) (ax : Axes) : Axes :=
  {| categories := categories ax; boxes := boxes ax; points := points ax;
     title := title ax; xlabel := xlabel ax; ylabel := ylabel ax;
     ylim := view_limits bottom top; texts := texts ax |}.

(** [ax.text(x, y, s)]: a text artist in data coordinates; it does not
    take part in the view limits. *)
Definition text (x : nat) (y : Q) (s : string) (ax : Axes) : Axes :=
  {| categories := categories ax; boxes := boxes ax; points := points ax;
     title := title ax; xlabel := xlabel ax; ylabel := ylabel ax; ylim := ylim ax;
     texts := texts ax ++ [ {| text_x := x; text_y := y; text_s := s |} ] |}.

(** Registering labels with the categorical axis: a label not seen before
    gets the next free position, a known label keeps its position. *)
Definition update_units (data : list string) (cats : list string) : list string :=
  fold_left
    (fun seen k => if existsb (String.eqb k) seen then seen else seen ++ [k])
    data cats.

Fixpoint index_of (k : string) (l : list string) : option nat :=
  match l with
  | [] => None
  | y :: t => if String.eqb k y then Some O else option_map S (index_of k t)
  end.

(** The view limits that plotting [ys] leaves behind: the data range
    widened by the default 5% margin. *)
Definition autoscale (ys : list Q) (ax : Axes) : Q * Q :=
  match Pandas.sort_values ys with
  | [] => ylim ax
  | (lo :: _) as s =>
      let hi := last s lo in
      (lo - (5 # 100) * (hi - lo), hi + (5 # 100) * (hi - lo))
  end.

Definition add_boxes (cats : list string) (bs : list Box) (ax : Axes) : Axes :=
  {| categories := cats; boxes := boxes ax ++ bs; points := points ax;
     title := title ax; xlabel := xlabel ax; ylabel := ylabel ax;
     ylim := autoscale (flat_map box_data bs) ax; texts := texts ax |}.

Definition add_points (cats : list string) (ps : list (Q * Q)) (ax : Axes) : Axes :=
  {| categories := cats; boxes := boxes ax; points := points ax ++ ps;
     title := title ax; xlabel := xlabel ax; ylabel := ylabel ax;
     ylim := autoscale (flat_map box_data (boxes ax) ++ map snd ps) ax;
     texts := texts ax |}.

(** [plt.figure(figsize=(w, h))] with its current axes. *)
Record Figure : Type := { figsize : Q * Q; gca : Axes }.

Definition set_gca (ax : Axes) (fig : Figure) : Figure :=
  {| figsize := figsize fig; gca := ax |}.

(** The part of a backend that [savefig] needs: the bounding box, in
    inches, of everything drawn on the figure. *)
Record Renderer : Type := { get_tightbbox : Figure -> Q * Q }.

Inductive BboxInches : Type := Tight.

Inductive Format : Type := PNG | PDF | SVG.

Definition raster (f : Format) : bool :=
  match f with PNG => true | PDF | SVG => false end.

Record Image : Type := {
  format : Format;
  width_px : Z;
  height_px : Z;
  drawn_from : Figure
}.

Definition FileSystem : Type := string -> option Image.

Definition write (path : string) (img : Image) (fs : FileSystem) : FileSystem :=
  fun p => if String.eqb p path then Some img else fs p.

(** [savefig.pad_inches] *)
Definition pad_inches : Q := 1 # 10.

Definition ends_with (suffix s : string) : bool :=
  let ls := String.length s in
  let lx := String.length suffix in
  String.eqb (substring (ls - lx) lx s) suffix.

(** The format follows the extension; PNG is the default. *)
Definition format_of (path : string) : Format :=
  if ends_with ".pdf" path then PDF
  else if ends_with ".svg" path then SVG
  else PNG.

(** [plt.savefig(path, dpi=..., bbox_inches=...)].  Without [bbox_inches]
    the whole figure is saved; with ["tight"] only the bounding box of the
    artists, padded by [pad_inches] on every side. *)
Definition savefig (R : Renderer) (path : string) (dpi : Q) (bbox_inches : option BboxInches)
    (fig : Figure) (fs : FileSystem) : FileSystem :=
  let size :=
    match bbox_inches with
    | None => figsize fig
    | Some Tight =>
        let (w, h) := get_tightbbox R fig in
        (w + 2 * pad_inches, h + 2 * pad_inches)
    end in
  write path
    {| format := format_of path;
       width_px := Qfloor (fst size * dpi);
       height_px := Qfloor (snd size * dpi);
       drawn_from := fig |}
    fs.

End Matplotlib.

(* ------------------------------------------------------------------ *)
(** ** seaborn: the two categorical plots *)

Module Seaborn.

Import Matplotlib.

(** The levels of a string-valued variable, in order of appearance. *)
Definition categorical_order (v : list string) : list string := Pandas.unique v.

Definition index_of := Matplotlib.index_of.

Fixpoint enumerate (A : Type) (i : nat) (l : list A) : list (nat * A) :=
  match l with
  | [] => []
  | x :: t => (i, x) :: enumerate (S i) t
  end.

(** [sns.boxplot(x=..., y=..., data=...)]: the levels are registered with
    the categorical axis and each level gets one box, at the position the
    axis gives its label (on a fresh axis the [i]-th level is at [i]). *)
Definition boxplot (data : list (string * Q)) (ax : Axes) : Axes :=
  let levels := categorical_order (map fst data) in
  let cats := update_units levels (categories ax) in
  add_boxes cats
    (flat_map
       (fun level =>
          let ys := map snd (filter (fun r => String.eqb (fst r) level) data) in
          match index_of level cats with
          | Some i =>
              [ {| box_x := i; box_label := level; box_data := ys;
                   box_median := Pandas.median ys |} ]
          | None => []
          end)
       levels)
    ax.

Section Strip.
Variable G : Numpy.Generator.

(** The markers of one level: at the position the axis gives the label,
    moved sideways by a jitter drawn from [numpy.random.uniform(-jlim, jlim)]
    (no jitter for a level with a single row). *)
Definition strip_level (jlim : Q) (cats : list string) (data : list (string * Q))
    (level : string) (st : Numpy.legacy G) : list (Q * Q) * Numpy.legacy G :=
  let ys := map snd (filter (fun r => String.eqb (fst r) level) data) in
  match index_of level cats with
  | None => ([], st)
  | Some i =>
      if (1 <? List.length ys)%nat
      then
        let (js, st') := Numpy.legacy_uniform G (- jlim) jlim (List.length ys) st in
        (Numpy.map2 (fun j y => (inject_Z (Z.of_nat i) + j, y)) js ys, st')
      else (map (fun y => (inject_Z (Z.of_nat i), y)) ys, st)
  end.

Fixpoint strip_levels (jlim : Q) (cats : list string) (data : list (string * Q))
    (levels : list string) (st : Numpy.legacy G) : list (Q * Q) :=
  match levels with
  | [] => []
  | level :: rest =>
      let (ps, st') := strip_level jlim cats data level st in
      ps ++ strip_levels jlim cats data rest st'
  end.

(** [sns.stripplot(x=..., y=..., data=..., jitter=...)]: the levels of
    the data are registered with the categorical axis (labels the axis
    already knows keep their position) and every row gets one marker; the
    jitter comes from the process-wide generator, in state [st]. *)
Definition stripplot (data : list (string * Q)) (jitter : Q) (st : Numpy.legacy G)
    (ax : Axes) : Axes :=
  let levels := categorical_order (map fst data) in
  let cats := update_units levels (categories ax) in
  add_points cats (strip_levels jitter cats data levels st) ax.

End Strip.

End Seaborn.

(* ------------------------------------------------------------------ *)
(** ** The script *)

Module Chart.

(** *** Data synthesis (chart.py, lines 12-33) *)

Import Numpy.

Record Params : Type := { n : nat; mu : Q; sigma : Q }.

Definition n_customers : nat := 1200.

Definition segments : list (string * Params) :=
  [ ("Low value"%string,  {| n := 550; mu := 3;      sigma := 6 # 10 |});
    ("Mid value"%string,  {| n := 450; mu := 42 # 10; sigma := 7 # 10 |});
    ("High value"%string, {| n := 200; mu := 5;      sigma := 9 # 10 |}) ].

(** One dictionary of [rows]. *)
Record Row : Type := { segment : string; purchase_amount : Q }.

Section Synthesis.
Variable G : Generator.

(** The three arrays drawn for one segment, in the order of lines 26,
    28 and 29. *)
Record Drawn : Type := {
  samples : list Q;
  heavy_tail : list Z;
  factor : list Q
}.

Definition draw_segment (params : Params) (g : bitgen G) : Drawn * bitgen G :=
  let (s, g1) := lognormal G (mu params) (sigma params) (n params) g in
  let (h, g2) := choice G [0; 1]%Z (n params) [97 # 100; 3 # 100] g1 in
  let (u, g3) := uniform G 3 10 (n params) g2 in
  ({| samples := s; heavy_tail := h; factor := u |}, g3).

(** [samples * (1 + heavy_tail * rng.uniform(...))] *)
Definition inflate (d : Drawn) : list Q :=
  map2 Qmult (samples d)
    (map (Qplus 1) (map2 (fun h u => inject_Z h * u) (heavy_tail d) (factor d))).

(** [for amt in samples: rows.append({...})] *)
Definition append_rows (seg : string) (amts : list Q) (rows : list Row) : list Row :=
  fold_left
    (fun rows amt =>
       rows ++ [ {| segment := seg; purchase_amount := Rounding.round amt 2 |} ])
    amts rows.

(** [for seg, params in segments.items(): ...] *)
Fixpoint loop (items : list (string * Params)) (g : bitgen G) (rows : list Row)
    : list Row * bitgen G :=
  match items with
  | [] => (rows, g)
  | (seg, params) :: rest =>
      let (d, g') := draw_segment params g in
      loop rest g' (append_rows seg (inflate d) rows)
  end.

(** Lines 23-33 run from generator state [g]. *)
Definition rows_from (g : bitgen G) : list Row := fst (loop segments g []).

(** [df]: the rows built from [default_rng(seed=42)]. *)
Definition df (e : entropy G) : list Row :=
  rows_from (default_rng G (Some 42%Z) e).

(** The arrays drawn for each segment, replayed from the same generator
    states the loop goes through. *)
Fixpoint drawn_log (items : list (string * Params)) (g : bitgen G)
    : list (string * Drawn) :=
  match items with
  | [] => []
  | (seg, params) :: rest =>
      let (d, g') := draw_segment params g in
      (seg, d) :: drawn_log rest g'
  end.

Definition drawn (e : entropy G) : list (string * Drawn) :=
  drawn_log segments (default_rng G (Some 42%Z) e).

(** The rows one segment contributes, one per inflated sample and in
    array order. *)
Definition block (seg : string) (d : Drawn) : list Row :=
  map (fun amt => {| segment := seg; purchase_amount := Rounding.round amt 2 |})
    (inflate d).

(** Number of rows carrying a given label. *)
Definition count (seg : string) (d : list Row) : nat :=
  List.length (filter (fun r => String.eqb (segment r) seg) d).

(** What is known of the arrays drawn for a segment with parameters
    [p]: their length and the range of their entries. *)
Definition well_drawn (p : Params) (d : Drawn) : Prop :=
  (List.length (samples d) = n p /\ List.length (heavy_tail d) = n p /\
   List.length (factor d) = n p) /\
  (Forall (fun s => 0 < s)%Q (samples d) /\
   Forall (fun h => h = 0%Z \/ h = 1%Z) (heavy_tail d) /\
   Forall (fun u => 3 <= u /\ u < 10)%Q (factor d)) /\
  exists g2, factor d = fst (uniform G 3 10 (n p) g2).

(** Entry by entry: an outlier mark of 1 multiplies the base draw by
    [1 + u] with [u] between 3 and 10, a mark of 0 leaves it as drawn,
    and the arrays end together. *)
Definition inflated_at (d : Drawn) (k : nat) : Prop :=
  match nth_error (samples d) k, nth_error (heavy_tail d) k,
        nth_error (factor d) k, nth_error (inflate d) k with
  | Some s, Some h, Some u, Some amt =>
      (h = 1%Z /\ (3 <= u /\ u <= 10) /\ amt == s * (1 + u) /\
       (4 * s <= amt /\ amt <= 11 * s))%Q
      \/ (h = 0%Z /\ amt == s)%Q
  | None, None, None, None => True
  | _, _, _, _ => False
  end.

End Synthesis.

(** *** Rendering (chart.py, lines 36-81) *)

Fixpoint group3 (rev_digits : list ascii) : list ascii :=
  match rev_digits with
  | a :: b :: c :: (_ :: _) as rest => a :: b :: c :: ","%char :: group3 rest
  | _ => rev_digits
  end.

Definition decimal (z : Z) : string :=
  DecimalString.NilZero.string_of_uint (N.to_uint (Z.to_N z)).

(** [f"{v:,.2f}"] *)
Definition format_amount (v : Q) : string :=
  let cents := Rounding.rint (v * 100) in
  let a := Z.abs cents in
  let whole := string_of_list_ascii
                 (rev (group3 (rev (list_ascii_of_string (decimal (a / 100)))))) in
  let frac := decimal (a mod 100) in
  ((if Qle_bool 0 v then "" else "-") ++ whole ++ "."
     ++ (if (a mod 100 <? 10)%Z then "0" else "") ++ frac)%string.

Fixpoint lookup (k : string) (s : list (string * Q)) : option Q :=
  match s with
  | [] => None
  | (k', v) :: t => if String.eqb k k' then Some v else lookup k t
  end.

Section Rendering.
Variable G : Generator.
Variable R : Matplotlib.Renderer.

Import Matplotlib.

(** [df[["segment", "purchase_amount"]]] as (x, y) pairs. *)
Definition xy (d : list Row) : list (string * Q) :=
  map (fun r => (segment r, purchase_amount r)) d.

(** [df.groupby("segment")["purchase_amount"].median().round(2)] *)
Definition medians (d : list Row) : list (string * Q) :=
  Pandas.series_round 2 (Pandas.groupby_median (xy d)).

(** [for i, seg in enumerate(medians.index): ax.text(...)] ; the key
    comes from the index, so the lookup cannot miss. *)
Definition annotate (meds : list (string * Q)) (ax : Axes) : Axes :=
  fold_left
    (fun ax iseg =>
       match lookup (snd iseg) meds with
       | Some median_val =>
           text (fst iseg) (median_val * (102 # 100))
             ("Median: $" ++ format_amount median_val) ax
       | None => ax
       end)
    (Seaborn.enumerate 0 (map fst meds)) ax.

(** The text artist the annotation loop adds for one index entry. *)
Definition annotation_of (meds : list (string * Q)) (iseg : nat * string) : list Text :=
  match lookup (snd iseg) meds with
  | Some median_val =>
      [ {| text_x := fst iseg; text_y := (median_val * (102 # 100))%Q;
           text_s := "Median: $" ++ format_amount median_val |} ]
  | None => []
  end.

(** The median of the amounts of one segment, as both the box plot and
    the group-by compute it. *)
Definition segment_median (seg : string) (d : list Row) : option Q :=
  Pandas.median (map snd (filter (fun r => String.eqb (fst r) seg) (xy d))).

(** Lines 36-75.  [None] is the exception raised when the quantile of
    an empty frame (NaN) is passed to [set_ylim].  Nothing before the strip
    plot draws from the process-wide generator, so its jitter starts from the
    state the process was given.  Colours, widths and font sizes are left
    out. *)
Definition plot (e : entropy G) (d : list Row) : option Figure :=
  let fig := {| figsize := (8, 8); gca := new_axes |} in
  let ax := Seaborn.boxplot (xy d) (gca fig) in
  let ax := Seaborn.stripplot G (xy (Pandas.sample G (25 # 100) (Some 1%Z) e d))
              (25 # 100) (legacy_global G e) ax in
  let ax := set_title "Distribution of Purchase Amounts by Customer Segment" ax in
  let ax := set_xlabel "" ax in
  let ax := set_ylabel "Purchase amount (USD)" ax in
  match Pandas.quantile (995 # 1000) (map purchase_amount d) with
  | None => None
  | Some q =>
      let ax := set_ylim 0 (q * (105 # 100)) ax in
      let ax := annotate (medians d) ax in
      Some (set_gca ax fig)
  end.

(** The whole script: the file system after the run.  [tight_layout]
    only moves the artists inside the figure, which shows in what the
    backend reports as their bounding box; [close] releases the figure. *)
Definition main (e : entropy G) (fs : FileSystem) : option FileSystem :=
  match plot e (df G e) with
  | None => None
  | Some fig => Some (savefig R "chart.png" 64 (Some Tight) fig fs)
  end.

End Rendering.

End Chart.

(* ------------------------------------------------------------------ *)
(** ** Concrete generators
    Executable instances of the interface, used to run the script on
    actual numbers. *)

Module Instances.

Import Numpy.

(** A 64-bit linear congruential generator. *)
Definition next (g : Z) : Z :=
  ((g * 6364136223846793005 + 1442695040888963407) mod 2 ^ 64)%Z.

Definition bits (g : Z) : Z := (g / 2 ^ 40)%Z.

(** A fraction in [0, 1) with three decimals. *)
Definition unit (g : Z) : Q := inject_Z (bits g mod 1000) / 1000.

Definition pick (a : list Z) (g : Z) : Z :=
  nth (if (bits g mod 100 <? 97)%Z then 0%nat else 1%nat) a (hd 0%Z a).

Definition between (lo hi : Q) (g : Z) : Q := lo + (hi - lo) * unit g.

(** [k] consecutive row numbers, starting at an offset and wrapping
    around. *)
Definition indices (n k : nat) (s : Z) : list nat :=
  let off := Z.to_nat (bits s mod 1000) in
  firstn k (skipn off (seq 0 n) ++ firstn off (seq 0 n)).

Lemma unit_range g : 0 <= unit g /\ unit g < 1.
Proof.
  unfold unit.
  assert (H : (0 <= bits g mod 1000 < 1000)%Z) by (apply Z.mod_pos_bound; lia).
  split.
  - apply Qle_shift_div_l; [reflexivity|].
    rewrite Qmult_0_l. change 0 with (inject_Z 0). rewrite <- Zle_Qle. lia.
  - apply Qlt_shift_div_r; [reflexivity|].
    rewrite Qmult_1_l. change 1000 with (inject_Z 1000). rewrite <- Zlt_Qlt. lia.
Qed.

Lemma pick_in a g : a <> [] -> In (pick a g) a.
Proof.
  intros Ha. unfold pick.
  destruct (nth_in_or_default (if (bits g mod 100 <? 97)%Z then 0%nat else 1%nat)
              a (hd 0%Z a)) as [H | H]; [exact H|].
  rewrite H. destruct a; [congruence | left; reflexivity].
Qed.

Lemma between_range lo hi g :
  lo < hi -> lo <= between lo hi g /\ between lo hi g < hi.
Proof.
  intros H. unfold between. destruct (unit_range g) as [H0 H1].
  split; nra.
Qed.

Lemma rotation_perm (off n : nat) :
  Permutation (skipn off (seq 0 n) ++ firstn off (seq 0 n)) (seq 0 n).
Proof.
  rewrite Permutation_app_comm. now rewrite firstn_skipn.
Qed.

Lemma firstn_incl (A : Type) (k : nat) (l : list A) x : In x (firstn k l) -> In x l.
Proof.
  intros H. rewrite <- (firstn_skipn k l). apply in_or_app. now left.
Qed.

Lemma indices_lt n k s :
  (k <= n)%nat -> Forall (fun i => (i < n)%nat) (indices n k s).
Proof.
  intros _. apply Forall_forall. intros i Hi. unfold indices in Hi.
  apply firstn_incl in Hi. apply (Permutation_in _ (rotation_perm _ n)) in Hi.
  apply in_seq in Hi. lia.
Qed.

Lemma indices_length n k s : (k <= n)%nat -> List.length (indices n k s) = k.
Proof.
  intros Hk. unfold indices.
  rewrite length_firstn, (Permutation_length (rotation_perm _ n)), length_seq. lia.
Qed.

Lemma indices_NoDup n k s : (k <= n)%nat -> NoDup (indices n k s).
Proof.
  intros _. unfold indices.
  set (l := skipn _ (seq 0 n) ++ firstn _ (seq 0 n)).
  assert (Hl : NoDup l)
    by (apply (Permutation_NoDup (Permutation_sym (rotation_perm _ n))), seq_NoDup).
  rewrite <- (firstn_skipn k l) in Hl. exact (NoDup_app_remove_r _ _ Hl).
Qed.

(** The instance built around a given positive "lognormal" draw. *)
Definition make (draw : Q -> Q -> Z -> Q)
    (draw_pos : forall mu sigma g, 0 <= sigma -> 0 < draw mu sigma g) : Generator :=
  {| bitgen := Z;
     entropy := Z;
     seed_state := fun z => next z;
     fresh_state := fun e => e;
     lognormal1 := fun mu sigma g => (draw mu sigma g, next g);
     choice1 := fun a _ g => (pick a g, next g);
     uniform1 := fun lo hi g => (between lo hi g, next g);
     legacy := Z;
     legacy_seed := fun z => next z;
     legacy_global := fun e => e;
     choice_without_replacement := indices;
     legacy_uniform1 := fun lo hi s => (between lo hi s, next s);
     lognormal1_pos := draw_pos;
     choice1_in := fun a _ g => pick_in (a := a) g;
     uniform1_range := between_range;
     choice_without_replacement_lt := indices_lt;
     choice_without_replacement_length := indices_length;
     choice_without_replacement_NoDup := indices_NoDup;
     legacy_uniform1_range := between_range |}.

(** Amounts that grow with [mu] and spread over a factor of two. *)
Definition spread (mu sigma : Q) (g : Z) : Q := (mu * mu + 1) * (1 + unit g).

Lemma spread_pos mu sigma g : 0 <= sigma -> 0 < spread mu sigma g.
Proof.
  intros _. unfold spread. destruct (unit_range g) as [H0 _].
  apply Qmult_lt_0_compat; nra.
Qed.

Definition lcg : Generator := make spread spread_pos.

(** A backend for which the artists of any figure fit a box of 7.5 by 7.7
    inches. *)
Definition snug : Matplotlib.Renderer :=
  {| Matplotlib.get_tightbbox := fun _ => (75 # 10, 77 # 10) |}.

End Instances.

(* ------------------------------------------------------------------ *)
(** * Properties *)

Import Numpy Chart.

Local Open Scope string_scope.
Local Open Scope list_scope.

(** ** Array draws *)

Section DrawFacts.
Variable G : Generator.

Lemma draws_length (A : Type) (step : bitgen G -> A * bitgen G) size g :
  List.length (fst (draws G step size g)) = size.
Proof.
  revert g. induction size as [|k IH]; intros g; simpl; [reflexivity|].
  destruct (step g) as [x g1]. specialize (IH g1).
  destruct (draws G step k g1) as [xs g2]. simpl in *. now rewrite IH.
Qed.

Lemma draws_Forall (A : Type) (P : A -> Prop) (step : bitgen G -> A * bitgen G) :
  (forall g, P (fst (step g))) ->
  forall size g, Forall P (fst (draws G step size g)).
Proof.
  intros Hstep size. induction size as [|k IH]; intros g; simpl; [constructor|].
  pose proof (Hstep g) as Hx. destruct (step g) as [x g1]. specialize (IH g1).
  destruct (draws G step k g1) as [xs g2]. simpl in *. now constructor.
Qed.

(** The three arrays of a segment, with the generator states between
    the calls. *)
Lemma draw_segment_eq params g :
  exists g1 g2,
    fst (draw_segment G params g) =
    {| samples := fst (lognormal G (mu params) (sigma params) (n params) g);
       heavy_tail := fst (choice G [0; 1]%Z (n params) [97 # 100; 3 # 100] g1);
       factor := fst (uniform G 3 10 (n params) g2) |}.
Proof.
  unfold draw_segment.
  destruct (lognormal G (mu params) (sigma params) (n params) g) as [s g1].
  destruct (choice G [0; 1]%Z (n params) [97 # 100; 3 # 100] g1) as [h g2] eqn:Eh.
  destruct (uniform G 3 10 (n params) g2) as [u g3] eqn:Eu.
  exists g1, g2. simpl. now rewrite Eh, Eu.
Qed.

Lemma draw_segment_lengths params g :
  let d := fst (draw_segment G params g) in
  List.length (samples d) = n params /\
  List.length (heavy_tail d) = n params /\
  List.length (factor d) = n params.
Proof.
  destruct (draw_segment_eq params g) as [g1 [g2 E]]. simpl. rewrite E. simpl.
  unfold lognormal, choice, uniform. now rewrite !draws_length.
Qed.

Lemma draw_segment_ranges params g :
  0 <= sigma params ->
  let d := fst (draw_segment G params g) in
  Forall (fun s => 0 < s) (samples d) /\
  Forall (fun h => h = 0%Z \/ h = 1%Z) (heavy_tail d) /\
  Forall (fun u => 3 <= u /\ u < 10) (factor d).
Proof.
  intros Hs. destruct (draw_segment_eq params g) as [g1 [g2 E]]. simpl. rewrite E. simpl.
  unfold lognormal, choice, uniform. repeat split.
  - apply draws_Forall. intros g0. now apply lognormal1_pos.
  - apply draws_Forall. intros g0.
    destruct (@choice1_in G [0; 1]%Z [97 # 100; 3 # 100] g0) as [H | [H | []]];
      [discriminate | left | right]; now rewrite <- H.
  - apply draws_Forall. intros g0. apply uniform1_range. reflexivity.
Qed.
End DrawFacts.

(** ** Shape of the generated rows *)

Lemma map2_nth_error (A B C : Type) (f : A -> B -> C) xs ys k :
  nth_error (map2 f xs ys) k =
  match nth_error xs k, nth_error ys k with
  | Some x, Some y => Some (f x y)
  | _, _ => None
  end.
Proof.
  revert ys k. induction xs as [|x xs IH]; intros [|y ys] [|k]; simpl; try reflexivity.
  - now destruct (nth_error xs k).
  - apply IH.
Qed.

Lemma map2_length (A B C : Type) (f : A -> B -> C) xs ys :
  List.length xs = List.length ys -> List.length (map2 f xs ys) = List.length xs.
Proof.
  revert ys. induction xs as [|x xs IH]; intros [|y ys] H; simpl in *;
    try reflexivity; try discriminate.
  f_equal. apply IH. now injection H.
Qed.

Section SynthesisFacts.
Variable G : Generator.

(** The [k]-th inflated amount is built from the [k]-th entry of each
    of the three arrays. *)
Lemma inflate_nth_error (d : Drawn) k :
  nth_error (inflate d) k =
  match nth_error (samples d) k, nth_error (heavy_tail d) k, nth_error (factor d) k with
  | Some s, Some h, Some u => Some (s * (1 + inject_Z h * u))%Q
  | _, _, _ => None
  end.
Proof.
  unfold inflate. rewrite map2_nth_error, nth_error_map, map2_nth_error.
  destruct (nth_error (samples d) k), (nth_error (heavy_tail d) k),
    (nth_error (factor d) k); reflexivity.
Qed.

Lemma inflate_length (d : Drawn) size :
  List.length (samples d) = size -> List.length (heavy_tail d) = size ->
  List.length (factor d) = size -> List.length (inflate d) = size.
Proof.
  intros Hs Hh Hu. unfold inflate.
  rewrite map2_length; [exact Hs|].
  rewrite length_map, map2_length; congruence.
Qed.

Lemma append_rows_app seg amts rows :
  append_rows seg amts rows =
  rows ++ map (fun amt => {| segment := seg; purchase_amount := Rounding.round amt 2 |}) amts.
Proof.
  unfold append_rows. revert rows.
  induction amts as [|a amts IH]; intros rows; simpl.
  - now rewrite app_nil_r.
  - rewrite IH, <- app_assoc. reflexivity.
Qed.

Lemma loop_rows items g rows :
  fst (loop G items g rows) =
  rows ++ flat_map (fun sd => block (fst sd) (snd sd)) (drawn_log G items g).
Proof.
  revert g rows. induction items as [|[seg params] rest IH]; intros g rows; simpl.
  - now rewrite app_nil_r.
  - destruct (draw_segment G params g) as [d g']. simpl.
    rewrite IH, append_rows_app, <- app_assoc. reflexivity.
Qed.

Lemma df_blocks e :
  df G e = flat_map (fun sd => block (fst sd) (snd sd)) (drawn G e).
Proof. unfold df, rows_from, drawn. now rewrite loop_rows. Qed.

Lemma drawn_log_well items g :
  Forall (fun sp => 0 <= sigma (snd sp))%Q items ->
  Forall2 (fun sp sd => fst sd = fst sp /\ well_drawn G (snd sp) (snd sd))
    items (drawn_log G items g).
Proof.
  intros Hitems. revert g.
  induction Hitems as [|[seg params] rest Hsig _ IH]; intros g; simpl; [constructor|].
  pose proof (draw_segment_lengths G params g) as Hlen.
  pose proof (draw_segment_ranges G params g Hsig) as Hrng.
  destruct (draw_segment_eq G params g) as [g1 [g2 E]].
  destruct (draw_segment G params g) as [d g']. simpl in *.
  constructor; [|apply IH].
  simpl. split; [reflexivity|]. repeat split; try tauto.
  exists g2. now rewrite E.
Qed.

Lemma segments_sigma : Forall (fun sp => 0 <= sigma (snd sp))%Q segments.
Proof. repeat constructor; discriminate. Qed.

(** The log has one entry per configured segment, in configuration
    order. *)
Lemma drawn_shape e :
  exists dl dm dh,
    drawn G e = [("Low value", dl); ("Mid value", dm); ("High value", dh)] /\
    well_drawn G {| n := 550; mu := 3; sigma := 6 # 10 |} dl /\
    well_drawn G {| n := 450; mu := 42 # 10; sigma := 7 # 10 |} dm /\
    well_drawn G {| n := 200; mu := 5; sigma := 9 # 10 |} dh.
Proof.
  pose proof (drawn_log_well (default_rng G (Some 42%Z) e) segments_sigma) as H.
  unfold drawn. remember (drawn_log G segments (default_rng G (Some 42%Z) e)) as l.
  clear Heql. unfold segments in H.
  inversion H as [|? [s1 dl] ? ? [E1 W1] H1]; subst; clear H.
  inversion H1 as [|? [s2 dm] ? ? [E2 W2] H2]; subst; clear H1.
  inversion H2 as [|? [s3 dh] ? ? [E3 W3] H3]; subst; clear H2.
  inversion H3; subst. simpl in *. subst.
  exists dl, dm, dh. tauto.
Qed.

Lemma block_length seg d size :
  well_drawn G size d -> List.length (block seg d) = n size.
Proof.
  intros [[Hs [Hh Hu]] _]. unfold block. rewrite length_map.
  now apply inflate_length.
Qed.

Lemma block_segments seg d :
  map segment (block seg d) = repeat seg (List.length (block seg d)).
Proof.
  unfold block. rewrite length_map, map_map. simpl.
  induction (inflate d) as [|a l IH]; simpl; [reflexivity | now rewrite IH].
Qed.

Lemma df_segment_column e :
  map segment (df G e) =
  repeat "Low value" 550 ++ repeat "Mid value" 450 ++ repeat "High value" 200.
Proof.
  destruct (drawn_shape e) as (dl & dm & dh & E & Wl & Wm & Wh).
  rewrite df_blocks, E. simpl. rewrite app_nil_r, !map_app, !block_segments.
  rewrite (block_length _ Wl), (block_length _ Wm), (block_length _ Wh).
  reflexivity.
Qed.

Lemma count_column seg (d : list Row) :
  count seg d = count_occ string_dec (map segment d) seg.
Proof.
  unfold count. induction d as [|r d IH]; simpl; [reflexivity|].
  destruct (string_dec (segment r) seg) as [E | E].
  - apply String.eqb_eq in E. rewrite E. simpl. now rewrite IH.
  - apply String.eqb_neq in E. rewrite E. exact IH.
Qed.

End SynthesisFacts.

Lemma df_counts (G : Generator) (e : entropy G) :
  count "Low value" (df G e) = 550%nat /\
  count "Mid value" (df G e) = 450%nat /\
  count "High value" (df G e) = 200%nat /\
  List.length (df G e) = 1200%nat.
Proof.
  assert (H : forall seg, count seg (df G e) =
            count_occ string_dec
              (repeat "Low value" 550 ++ repeat "Mid value" 450 ++ repeat "High value" 200)
              seg)
    by (intros seg; now rewrite count_column, df_segment_column).
  repeat split; try (rewrite H; now vm_compute).
  rewrite <- (length_map segment), df_segment_column. now vm_compute.
Qed.

(** C1.  Whatever numbers the generator produces, the data frame holds
    for every configured segment exactly its configured number of rows: 550
    labelled "Low value", 450 labelled "Mid value" and 200 labelled
    "High value"; it has 1200 rows in all, the script's [n_customers]. *)
Theorem df_segment_counts (G : Generator) (e : entropy G) :
  Forall (fun sp => count (fst sp) (df G e) = n (snd sp)) segments /\
  count "Low value" (df G e) = 550%nat /\
  count "Mid value" (df G e) = 450%nat /\
  count "High value" (df G e) = 200%nat /\
  List.length (df G e) = 1200%nat /\
  List.length (df G e) = n_customers.
Proof.
  destruct (df_counts G e) as (Hl & Hm & Hh & Hlen).
  repeat split; try assumption.
  repeat constructor; assumption.
Qed.

(** C8.  The rows come in configuration order, one block per segment:
    550 "Low value" rows, then 450 "Mid value" rows, then 200 "High value"
    rows.  Inside a block the [k]-th row is the rounded [k]-th entry of the
    arrays drawn for that segment: no row is moved. *)
Theorem df_block_order (G : Generator) (e : entropy G) :
  map fst (drawn G e) = map fst segments /\
  df G e = flat_map (fun sd => block (fst sd) (snd sd)) (drawn G e) /\
  map segment (df G e) =
    repeat "Low value" 550 ++ repeat "Mid value" 450 ++ repeat "High value" 200 /\
  Forall
    (fun sd =>
       forall k,
         nth_error (block (fst sd) (snd sd)) k =
         match nth_error (samples (snd sd)) k, nth_error (heavy_tail (snd sd)) k,
               nth_error (factor (snd sd)) k with
         | Some s, Some h, Some u =>
             Some {| segment := fst sd;
                     purchase_amount := Rounding.round (s * (1 + inject_Z h * u)) 2 |}
         | _, _, _ => None
         end)
    (drawn G e).
Proof.
  split; [|split; [apply df_blocks | split; [apply df_segment_column|]]].
  - destruct (drawn_shape G e) as (dl & dm & dh & E & _). now rewrite E.
  - apply Forall_forall. intros [seg d] _ k. simpl.
    unfold block. rewrite nth_error_map, inflate_nth_error.
    destruct (nth_error (samples d) k), (nth_error (heavy_tail d) k),
      (nth_error (factor d) k); reflexivity.
Qed.


(** ** Decimal rounding of an amount *)

Section RoundingFacts.

Lemma floor_bounds (x : Q) :
  (inject_Z (Qfloor x) <= x /\ x < inject_Z (Qfloor x) + 1)%Q.
Proof.
  split; [apply Qfloor_le|].
  pose proof (Qlt_floor x) as H. rewrite inject_Z_plus in H. exact H.
Qed.

Lemma rint_nonneg (x : Q) : (0 <= x)%Q -> (0 <= Rounding.rint x)%Z.
Proof.
  intros Hx. unfold Rounding.rint. destruct (floor_bounds x) as [Hlo Hhi].
  set (f := Qfloor x) in *.
  assert (Hf : (0 <= f)%Z).
  { assert (H : (-1 < f)%Z); [|lia].
    rewrite Zlt_Qlt. change (inject_Z (-1)) with (-1)%Q. lra. }
  destruct (Qcompare (x - inject_Z f) (1 # 2)); [destruct (Z.even f)| |]; lia.
Qed.

Lemma round2_eq (x : Q) :
  (Rounding.round x 2 == inject_Z (Rounding.rint (x * 100)) / 100)%Q.
Proof. reflexivity. Qed.

(** Rounding to cents keeps a non-negative amount non-negative. *)
Lemma round2_nonneg (x : Q) : (0 <= x)%Q -> (0 <= Rounding.round x 2)%Q.
Proof.
  intros Hx. rewrite round2_eq.
  apply Qle_shift_div_l; [reflexivity|]. rewrite Qmult_0_l.
  change 0%Q with (inject_Z 0). rewrite <- Zle_Qle.
  apply rint_nonneg. lra.
Qed.

Lemma rint_cases (x : Q) :
  (Rounding.rint x = Qfloor x /\ (x - inject_Z (Qfloor x) <= 1 # 2)%Q) \/
  (Rounding.rint x = (Qfloor x + 1)%Z /\ (1 # 2 <= x - inject_Z (Qfloor x))%Q).
Proof.
  unfold Rounding.rint.
  destruct (Qcompare_spec (x - inject_Z (Qfloor x)) (1 # 2)) as [E | L | L].
  - destruct (Z.even (Qfloor x)); [left | right]; split; try reflexivity; lra.
  - left. split; [reflexivity | lra].
  - right. split; [reflexivity | lra].
Qed.

Lemma rint_inject_Z (k : Z) : Rounding.rint (inject_Z k) = k.
Proof.
  unfold Rounding.rint. rewrite Qfloor_Z.
  assert (E : Qcompare (inject_Z k - inject_Z k) (1 # 2) = Lt).
  { apply (proj1 (Qlt_alt _ _)). lra. }
  now rewrite E.
Qed.

Lemma rint_mono (x y : Q) : (x <= y)%Q -> (Rounding.rint x <= Rounding.rint y)%Z.
Proof.
  intros Hxy.
  pose proof (Qfloor_resp_le _ _ Hxy) as Hf.
  destruct (floor_bounds x) as [Hxl Hxh]. destruct (floor_bounds y) as [Hyl Hyh].
  destruct (Z.eq_dec (Qfloor x) (Qfloor y)) as [E | NE].
  - unfold Rounding.rint. rewrite <- E.
    destruct (Qcompare_spec (x - inject_Z (Qfloor x)) (1 # 2)) as [Ex | Lx | Lx];
      destruct (Qcompare_spec (y - inject_Z (Qfloor x)) (1 # 2)) as [Ey | Ly | Ly];
      destruct (Z.even (Qfloor x)); try lia; exfalso; lra.
  - destruct (rint_cases x) as [[-> _] | [-> _]];
      destruct (rint_cases y) as [[-> _] | [-> _]]; lia.
Qed.

Lemma pow10_pos (ndigits : nat) : (0 < inject_Z (Rounding.pow10 ndigits))%Q.
Proof.
  change 0%Q with (inject_Z 0). rewrite <- Zlt_Qlt.
  unfold Rounding.pow10. apply Z.pow_pos_nonneg; lia.
Qed.

End RoundingFacts.

(** ** Heavy-tail inflation *)

Section InflationFacts.
Variable G : Generator.

Lemma well_drawn_inflated p d : well_drawn G p d -> forall k, inflated_at d k.
Proof.
  intros [[Hs [Hh Hu]] [[Ps [Ph Pu]] _]] k. unfold inflated_at.
  rewrite inflate_nth_error.
  destruct (nth_error (samples d) k) as [s|] eqn:Es.
  - assert (Hk : (k < n p)%nat) by (rewrite <- Hs; apply nth_error_Some; congruence).
    destruct (nth_error (heavy_tail d) k) as [h|] eqn:Eh;
      [|apply nth_error_None in Eh; lia].
    destruct (nth_error (factor d) k) as [u|] eqn:Eu;
      [|apply nth_error_None in Eu; lia].
    apply nth_error_In in Es, Eh, Eu.
    rewrite Forall_forall in Ps, Ph, Pu.
    specialize (Ps _ Es). specialize (Pu _ Eu).
    destruct (Ph _ Eh) as [-> | ->].
    + right. split; [reflexivity|]. change (inject_Z 0) with 0%Q. ring.
    + left. change (inject_Z 1) with 1%Q.
      split; [reflexivity|]. split; [lra|]. split; [ring|]. nra.
  - apply nth_error_None in Es.
    destruct (nth_error (heavy_tail d) k) eqn:Eh.
    { assert ((k < List.length (heavy_tail d))%nat)
        by (apply nth_error_Some; congruence). lia. }
    destruct (nth_error (factor d) k) eqn:Eu.
    { assert ((k < List.length (factor d))%nat)
        by (apply nth_error_Some; congruence). lia. }
    exact I.
Qed.

(** Every inflated amount is positive, and rounding to cents leaves it
    non-negative. *)
Lemma well_drawn_positive p d :
  well_drawn G p d ->
  Forall (fun amt => 0 < amt /\ 0 <= Rounding.round amt 2)%Q (inflate d).
Proof.
  intros W. apply Forall_forall. intros amt Hin.
  apply In_nth_error in Hin. destruct Hin as [k Hk].
  pose proof (well_drawn_inflated W k) as H. unfold inflated_at in H.
  destruct W as [_ [[Ps _] _]]. rewrite Forall_forall in Ps.
  rewrite Hk in H.
  destruct (nth_error (samples d) k) as [s|] eqn:Es;
    destruct (nth_error (heavy_tail d) k) as [h|];
    destruct (nth_error (factor d) k) as [u|]; try contradiction.
  apply nth_error_In in Es. specialize (Ps _ Es).
  assert (Hpos : (0 < amt)%Q) by (destruct H as [(_ & _ & _ & H4 & _) | [_ E]]; lra).
  split; [exact Hpos | apply round2_nonneg; lra].
Qed.

End InflationFacts.

(** C3.  The rows of the frame are the rounded inflated samples of the
    three segments, block after block.  For each segment, in configuration
    order, the array of factors is what [uniform(3.0, 10.0, size=n)]
    returned, and at every index of the [n] samples: if the sample is marked
    (heavy_tail = 1) the amount before rounding is the base draw times
    [1 + u], with [u] in [3, 10], hence between 4 and 11 times the base draw;
    if it is not marked (heavy_tail = 0) the amount before rounding is the
    base draw itself. *)
Theorem heavy_tail_inflation (G : Generator) (e : entropy G) :
  df G e = flat_map (fun sd => block (fst sd) (snd sd)) (drawn G e) /\
  Forall2
    (fun sp sd =>
       fst sd = fst sp /\
       (exists g, factor (snd sd) = fst (uniform G 3 10 (n (snd sp)) g)) /\
       List.length (inflate (snd sd)) = n (snd sp) /\
       forall k, inflated_at (snd sd) k)
    segments (drawn G e).
Proof.
  split; [apply df_blocks|].
  unfold drawn.
  eapply Forall2_impl; [|apply drawn_log_well, segments_sigma].
  intros [seg p] [seg' d] [E W]. simpl in *.
  split; [exact E|]. split; [apply W|]. split.
  - destruct W as [[Hs [Hh Hu]] _]. now apply inflate_length.
  - exact (well_drawn_inflated W).
Qed.

Lemma inflate_signs (G : Generator) (e : entropy G) :
  Forall
    (fun sd =>
       Forall (fun amt => 0 < amt /\ 0 <= Rounding.round amt 2)%Q (inflate (snd sd)))
    (drawn G e).
Proof.
  destruct (drawn_shape G e) as (dl & dm & dh & E & Wl & Wm & Wh). rewrite E.
  repeat constructor; simpl; eapply well_drawn_positive; eassumption.
Qed.

Lemma df_nonneg (G : Generator) (e : entropy G) :
  Forall (fun r => 0 <= purchase_amount r)%Q (df G e).
Proof.
  rewrite df_blocks. apply Forall_flat_map.
  eapply Forall_impl; [|apply inflate_signs].
  intros [seg d] Hd. simpl in *. unfold block. apply Forall_map.
  eapply Forall_impl; [|exact Hd]. simpl. tauto.
Qed.

(** Every purchase amount is a whole number of cents. *)
Lemma df_cents (G : Generator) (e : entropy G) :
  Forall (fun r => exists k : Z, purchase_amount r = (inject_Z k / 100)%Q) (df G e).
Proof.
  rewrite df_blocks. apply Forall_flat_map, Forall_forall. intros [seg d] _.
  unfold block. apply Forall_map, Forall_forall. intros amt _. simpl.
  eexists. reflexivity.
Qed.

(** ** Order statistics of the purchase amounts *)

Section SortFacts.

Lemma insert_perm x l : Permutation (Pandas.insert x l) (x :: l).
Proof.
  induction l as [|y t IH]; simpl; [reflexivity|].
  destruct (Qle_bool x y); [reflexivity|].
  rewrite IH. apply perm_swap.
Qed.

Lemma sort_values_perm xs : Permutation (Pandas.sort_values xs) xs.
Proof.
  induction xs as [|x xs IH]; simpl; [reflexivity|].
  rewrite insert_perm. now constructor.
Qed.

Lemma insert_sorted x l :
  StronglySorted Qle l -> StronglySorted Qle (Pandas.insert x l).
Proof.
  induction 1 as [|y t Ht IH Hy]; simpl; [repeat constructor|].
  destruct (Qle_bool x y) eqn:E.
  - apply Qle_bool_iff in E. constructor; [now constructor|].
    constructor; [exact E|].
    eapply Forall_impl; [|exact Hy]. intros z Hz. now apply Qle_trans with y.
  - assert (Hyx : (y <= x)%Q).
    { destruct (Qlt_le_dec y x) as [H | H]; [now apply Qlt_le_weak|].
      apply Qle_bool_iff in H. congruence. }
    constructor; [exact IH|].
    apply (Permutation_Forall (Permutation_sym (insert_perm x t))).
    now constructor.
Qed.

Lemma sort_values_sorted xs : StronglySorted Qle (Pandas.sort_values xs).
Proof.
  induction xs as [|x xs IH]; simpl; [constructor | now apply insert_sorted].
Qed.

(** In a sorted list nothing among the first [k + 1] entries exceeds the
    entry of rank [k]. *)
Lemma sorted_firstn_le s :
  StronglySorted Qle s ->
  forall k d, (k < List.length s)%nat ->
    Forall (fun x => x <= nth k s d)%Q (firstn (S k) s).
Proof.
  induction 1 as [|y t Ht IH Hy]; intros k d Hk; simpl in Hk; [lia|].
  destruct k as [|k].
  - simpl. repeat constructor. apply Qle_refl.
  - change (firstn (S (S k)) (y :: t)) with (y :: firstn (S k) t).
    change (nth (S k) (y :: t) d) with (nth k t d).
    constructor; [|apply IH; lia].
    rewrite Forall_forall in Hy. apply Hy. apply nth_In. lia.
Qed.

Lemma sorted_nth_succ s :
  StronglySorted Qle s ->
  forall k d, (S k < List.length s)%nat -> (nth k s d <= nth (S k) s d)%Q.
Proof.
  induction 1 as [|y t Ht IH Hy]; intros k d Hk; simpl in Hk; [lia|].
  destruct k as [|k].
  - change (nth 1 (y :: t) d) with (nth 0 t d). simpl nth at 1.
    rewrite Forall_forall in Hy. apply Hy. apply nth_In. lia.
  - change (nth (S k) (y :: t) d) with (nth k t d).
    change (nth (S (S k)) (y :: t) d) with (nth (S k) t d).
    apply IH. lia.
Qed.

Lemma filter_none (A : Type) (f : A -> bool) l :
  Forall (fun x => f x = false) l -> filter f l = [].
Proof.
  induction 1 as [|x l Hx _ IH]; simpl; [reflexivity | now rewrite Hx].
Qed.

Lemma filter_length_perm (A : Type) (f : A -> bool) l l' :
  Permutation l l' -> List.length (filter f l) = List.length (filter f l').
Proof.
  induction 1 as [|x l l' _ IH|x y l|l l' l'' _ IH1 _ IH2]; simpl.
  - reflexivity.
  - destruct (f x); simpl; now rewrite IH.
  - destruct (f x), (f y); reflexivity.
  - now rewrite IH1.
Qed.

Lemma filter_length_map (A B : Type) (g : A -> B) (f : B -> bool) l :
  List.length (filter (fun x => f (g x)) l) = List.length (filter f (map g l)).
Proof.
  induction l as [|x l IH]; simpl; [reflexivity|].
  destruct (f (g x)); simpl; now rewrite IH.
Qed.

(** The values above a quantile: with [len] values and [p <= 1], at most
    [len - 1 - floor ((len - 1) * p)] of them exceed the [p]-quantile, which
    is itself at least the value of rank [floor ((len - 1) * p)]. *)
Lemma quantile_above p xs q :
  Pandas.quantile p xs = Some q -> (p <= 1)%Q ->
  let lo := Z.to_nat (Qfloor (inject_Z (Z.of_nat (List.length xs) - 1) * p)) in
  (nth lo (Pandas.sort_values xs) q <= q)%Q /\
  (lo < List.length xs)%nat /\
  (List.length (filter (fun x => negb (Qle_bool x q)) xs) <= List.length xs - S lo)%nat.
Proof.
  intros Hq Hp. unfold Pandas.quantile in Hq.
  pose proof (sort_values_perm xs) as Hperm.
  pose proof (sort_values_sorted xs) as Hsorted.
  pose proof (Permutation_length Hperm) as Hlen.
  destruct (Pandas.sort_values xs) as [|v0 t] eqn:Es; [discriminate|].
  set (s := v0 :: t) in *. rewrite Hlen in Hq.
  set (len := List.length xs) in *.
  set (pos := (inject_Z (Z.of_nat len - 1) * p)%Q) in *.
  assert (Some_inj : forall x y : Q, Some x = Some y -> x = y)
    by (intros x y H; now inversion H).
  apply Some_inj in Hq. cbv zeta in Hq. cbv zeta.
  set (lo := Z.to_nat (Qfloor pos)) in *.
  assert (Hlen1 : (1 <= len)%nat) by (rewrite <- Hlen; simpl; lia).
  assert (Hlo : (lo < len)%nat).
  { assert (H : (Qfloor pos <= Z.of_nat len - 1)%Z).
    { rewrite <- (Qfloor_Z (Z.of_nat len - 1)). apply Qfloor_resp_le. unfold pos.
      assert (H0 : (0 <= inject_Z (Z.of_nat len - 1))%Q)
        by (change 0%Q with (inject_Z 0); rewrite <- Zle_Qle; lia).
      nra. }
    unfold lo. lia. }
  set (a := nth lo s v0) in *. set (b := nth (S lo) s a) in *.
  assert (Hab : (a <= b)%Q).
  { unfold b. destruct (Nat.lt_ge_cases (S lo) (List.length s)) as [H | H].
    - rewrite (nth_indep s a v0 H). apply sorted_nth_succ; assumption.
    - rewrite (nth_overflow s a H). apply Qle_refl. }
  assert (Hfrac : (0 <= pos - inject_Z (Qfloor pos))%Q)
    by (pose proof (Qfloor_le pos); lra).
  assert (Hprod : (0 <= (b - a) * (pos - inject_Z (Qfloor pos)))%Q)
    by (apply Qmult_le_0_compat; lra).
  assert (Haq : (a <= q)%Q) by (rewrite <- Hq; lra).
  split; [|split; [exact Hlo|]].
  - rewrite (nth_indep s q v0) by (rewrite Hlen; exact Hlo). exact Haq.
  - rewrite <- (filter_length_perm _ Hperm).
    rewrite <- (firstn_skipn (S lo) s), filter_app, length_app.
    rewrite filter_none.
    + pose proof (filter_length_le (fun x => negb (Qle_bool x q)) (skipn (S lo) s)) as H1.
      pose proof (length_skipn (S lo) s) as H2. simpl List.length at 1. lia.
    + eapply Forall_impl; [|apply (sorted_firstn_le Hsorted v0); rewrite Hlen; exact Hlo].
      intros x Hx. simpl in Hx. fold a in Hx.
      assert (Hxq : (x <= q)%Q) by (now apply Qle_trans with a).
      apply Qle_bool_iff in Hxq. now rewrite Hxq.
Qed.

End SortFacts.

Lemma filter_length_impl (A : Type) (f g : A -> bool) l :
  (forall x, f x = true -> g x = true) ->
  (List.length (filter f l) <= List.length (filter g l))%nat.
Proof.
  intros H. induction l as [|x l IH]; simpl; [lia|].
  destruct (f x) eqn:Ef.
  - rewrite (H x Ef). simpl. lia.
  - destruct (g x); simpl; lia.
Qed.


(** ** The figure *)

Import Matplotlib.

Section RenderingFacts.
Variable G : Generator.

Lemma insert_not_nil x l : Pandas.insert x l <> [].
Proof. destruct l as [|y t]; simpl; [|destruct (Qle_bool x y)]; discriminate. Qed.

Lemma sort_values_not_nil xs : xs <> [] -> Pandas.sort_values xs <> [].
Proof.
  destruct xs as [|x xs]; [congruence|]. intros _. simpl. apply insert_not_nil.
Qed.

Lemma quantile_some q xs : xs <> [] -> exists v, Pandas.quantile q xs = Some v.
Proof.
  intros H. apply sort_values_not_nil in H. unfold Pandas.quantile.
  destruct (Pandas.sort_values xs); [congruence | eexists; reflexivity].
Qed.

Lemma median_some xs : xs <> [] -> exists v, Pandas.median xs = Some v.
Proof.
  intros H. apply sort_values_not_nil in H. unfold Pandas.median.
  destruct (Pandas.sort_values xs) as [|v0 s]; [congruence|].
  destruct (Nat.even (List.length (v0 :: s))); eexists; reflexivity.
Qed.

(** The annotation loop adds text and touches nothing else. *)
Lemma annotate_frame meds ax :
  boxes (Chart.annotate meds ax) = boxes ax /\
  ylim (Chart.annotate meds ax) = ylim ax.
Proof.
  unfold Chart.annotate.
  generalize (Seaborn.enumerate 0 (map fst meds)). intros l. revert ax.
  induction l as [|[i seg] l IH]; intros ax; simpl; [tauto|].
  destruct (lookup seg meds) as [m|]; [|apply IH].
  split; (etransitivity; [apply IH | reflexivity]).
Qed.

Lemma xy_keys (d : list Row) : map fst (xy d) = map segment d.
Proof. unfold xy. rewrite map_map. reflexivity. Qed.

Lemma xy_values (d : list Row) : map snd (xy d) = map purchase_amount d.
Proof. unfold xy. rewrite map_map. reflexivity. Qed.

Lemma df_not_nil e : map purchase_amount (df G e) <> [].
Proof.
  intros H. apply (f_equal (@List.length Q)) in H.
  rewrite length_map in H.
  destruct (df_counts G e) as (_ & _ & _ & Hlen).
  rewrite Hlen in H. discriminate H.
Qed.

(** Lines 36-75 on the generated frame: the call succeeds, and the
    axes of the figure are those left by the annotation loop run after
    [set_ylim]. *)
Lemma plot_df e :
  exists q ax,
    Pandas.quantile (995 # 1000) (map purchase_amount (df G e)) = Some q /\
    plot G e (df G e) =
      Some {| figsize := (8, 8)%Q;
              gca := Chart.annotate (medians (df G e))
                       (set_ylim 0 (q * (105 # 100)) ax) |} /\
    boxes ax = boxes (Seaborn.boxplot (xy (df G e)) new_axes) /\
    texts ax = [].
Proof.
  destruct (quantile_some (995 # 1000) (df_not_nil e)) as [q Hq].
  exists q. eexists. split; [exact Hq|].
  unfold plot. rewrite Hq. split; [reflexivity|]. split; reflexivity.
Qed.

End RenderingFacts.

(** *** The view limits *)

Section LimitFacts.

Lemma Qle_bool_false (x y : Q) : (y < x)%Q -> Qle_bool x y = false.
Proof.
  intros H. destruct (Qle_bool x y) eqn:E; [|reflexivity].
  apply Qle_bool_iff in E. lra.
Qed.

Lemma Qle_bool_true (x y : Q) : (x <= y)%Q -> Qle_bool x y = true.
Proof. intros H. now apply Qle_bool_iff. Qed.

Lemma singular_bound_pos : (0 < singular_bound)%Q.
Proof. reflexivity. Qed.

(** An upper bound at or above the singular bound is kept as given,
    together with the lower bound 0. *)
Lemma view_limits_regular (top : Q) :
  (singular_bound <= top)%Q -> view_limits 0 top = (0%Q, top).
Proof.
  intros Htop. pose proof singular_bound_pos as Hb.
  assert (Hpos : (0 < top)%Q) by lra.
  assert (Habs : (Qabs top == top)%Q) by (apply Qabs_pos; lra).
  assert (H0 : Qle_bool 0 top = true) by (apply Qle_bool_true; lra).
  unfold view_limits, nonsingular. cbv zeta. rewrite H0. cbn [negb].
  assert (H1 : Qle_bool (Qabs 0) (Qabs top) = true)
    by (apply Qle_bool_true; rewrite Habs; change (Qabs 0) with 0%Q; lra).
  rewrite H1.
  assert (H2 : Qle_bool (1000000 / (1 # 1000000000000000) * float_tiny) (Qabs top) = true)
    by (apply Qle_bool_true; rewrite Habs; exact Htop).
  rewrite H2. cbn [negb].
  assert (H3 : Qle_bool (top - 0) (Qabs top * (1 # 1000000000000000)) = false).
  { apply Qle_bool_false. rewrite Habs. lra. }
  rewrite H3, H0. reflexivity.
Qed.

(** A non-negative upper bound below the singular bound (0 is the case
    that occurs) makes matplotlib widen the range to (-0.05, 0.05). *)
Lemma view_limits_singular (top : Q) :
  (0 <= top)%Q -> (top < singular_bound)%Q ->
  view_limits 0 top = ((- (5 # 100))%Q, (5 # 100)%Q).
Proof.
  intros Hpos Htop.
  assert (Habs : (Qabs top == top)%Q) by (apply Qabs_pos; lra).
  assert (H0 : Qle_bool 0 top = true) by (apply Qle_bool_true; lra).
  unfold view_limits, nonsingular. cbv zeta. rewrite H0. cbn [negb].
  assert (H1 : Qle_bool (Qabs 0) (Qabs top) = true)
    by (apply Qle_bool_true; rewrite Habs; change (Qabs 0) with 0%Q; lra).
  rewrite H1.
  assert (H2 : Qle_bool (1000000 / (1 # 1000000000000000) * float_tiny) (Qabs top) = false)
    by (apply Qle_bool_false; rewrite Habs; exact Htop).
  rewrite H2. reflexivity.
Qed.

End LimitFacts.

(** *** The 99.5th percentile of the frame *)

Section PercentileFacts.
Variable G : Generator.

Lemma sorted_amounts e :
  let s := Pandas.sort_values (map purchase_amount (df G e)) in
  Permutation s (map purchase_amount (df G e)) /\
  StronglySorted Qle s /\
  List.length s = 1200%nat /\
  Forall (fun x => 0 <= x)%Q s /\
  Forall (fun x => exists k : Z, x = (inject_Z k / 100)%Q) s.
Proof.
  cbv zeta. pose proof (sort_values_perm (map purchase_amount (df G e))) as Hperm.
  split; [exact Hperm|]. split; [apply sort_values_sorted|]. split.
  - rewrite (Permutation_length Hperm), length_map. apply df_counts.
  - split; apply (Permutation_Forall (Permutation_sym Hperm)), Forall_map.
    + apply df_nonneg.
    + apply df_cents.
Qed.

(** With 1200 rows, [quantile(0.995)] interpolates between the sorted
    amounts of rank 1193 and 1194 (counting from 0), 0.005 of the way up. *)
Lemma df_quantile e :
  exists q,
    Pandas.quantile (995 # 1000) (map purchase_amount (df G e)) = Some q /\
    (let s := Pandas.sort_values (map purchase_amount (df G e)) in
     q == nth 1193 s 0 + (nth 1194 s 0 - nth 1193 s 0) * (5 # 1000))%Q.
Proof.
  destruct (sorted_amounts e) as (_ & _ & Hlen & _ & _).
  unfold Pandas.quantile. cbv zeta.
  destruct (Pandas.sort_values (map purchase_amount (df G e))) as [|v0 t] eqn:Es;
    [discriminate Hlen|].
  eexists. split; [reflexivity|].
  rewrite Hlen.
  change (Z.to_nat (Qfloor (inject_Z (Z.of_nat 1200 - 1) * (995 # 1000)))) with 1193%nat.
  rewrite (nth_indep (v0 :: t) v0 0%Q) by (rewrite Hlen; lia).
  rewrite (nth_indep (v0 :: t) (nth 1193 (v0 :: t) 0%Q) 0%Q) by (rewrite Hlen; lia).
  assert (E : (inject_Z (Z.of_nat 1200 - 1) * (995 # 1000)
               - inject_Z (Qfloor (inject_Z (Z.of_nat 1200 - 1) * (995 # 1000)))
               == 5 # 1000)%Q) by reflexivity.
  now rewrite E.
Qed.

(** The percentile is never negative, and when it is positive it is at
    least a thousandth of a cent: far above the singular bound. *)
Lemma df_quantile_range e q :
  Pandas.quantile (995 # 1000) (map purchase_amount (df G e)) = Some q ->
  (0 <= q)%Q /\ ((0 < q)%Q -> (singular_bound <= q * (105 # 100))%Q).
Proof.
  intros Hq. destruct (df_quantile e) as (q' & Hq' & Hint).
  rewrite Hq in Hq'. injection Hq' as <-. cbv zeta in Hint.
  destruct (sorted_amounts e) as (_ & Hsorted & Hlen & Hnn & Hcents). cbv zeta in *.
  set (s := Pandas.sort_values (map purchase_amount (df G e))) in *.
  rewrite Forall_forall in Hnn, Hcents.
  assert (Ha : In (nth 1193 s 0%Q) s) by (apply nth_In; lia).
  assert (Hb : In (nth 1194 s 0%Q) s) by (apply nth_In; lia).
  pose proof (Hnn _ Ha) as Ha0.
  pose proof (@sorted_nth_succ s Hsorted 1193 0%Q ltac:(lia)) as Hab.
  destruct (Hcents _ Ha) as [ka Eka]. destruct (Hcents _ Hb) as [kb Ekb].
  set (a := nth 1193 s 0%Q) in *. set (b := nth 1194 s 0%Q) in *.
  split; [rewrite Hint; nra|].
  intros Hpos.
  assert (Em : (q == inject_Z (995 * ka + 5 * kb) / 100000)%Q).
  { rewrite Hint, Eka, Ekb, inject_Z_plus, !inject_Z_mult. field. }
  assert (Hm : (1 <= 995 * ka + 5 * kb)%Z).
  { assert (H : (0 < 995 * ka + 5 * kb)%Z); [|lia].
    rewrite Zlt_Qlt. change (inject_Z 0) with 0%Q.
    set (m := inject_Z (995 * ka + 5 * kb)) in *.
    assert (E : (m == q * 100000)%Q) by (rewrite Em; field).
    rewrite E. lra. }
  assert (Hq5 : (1 # 100000 <= q)%Q).
  { rewrite Em. apply Qle_shift_div_l; [reflexivity|].
    rewrite Zle_Qle in Hm. change (inject_Z 1) with 1%Q in Hm.
    eapply Qle_trans; [|exact Hm]. unfold Qle; simpl; lia. }
  apply Qle_trans with ((1 # 100000) * (105 # 100))%Q.
  - unfold singular_bound, float_tiny. unfold Qle. vm_compute. discriminate.
  - apply Qmult_le_compat_r; [exact Hq5 | unfold Qle; simpl; lia].
Qed.

End PercentileFacts.

Lemma plot_ylim (G : Generator) (e : entropy G) :
  exists q fig,
    Pandas.quantile (995 # 1000) (map purchase_amount (df G e)) = Some q /\
    plot G e (df G e) = Some fig /\
    ylim (gca fig) = view_limits 0 (q * (105 # 100)).
Proof.
  destruct (plot_df G e) as (q & ax & Hq & Hplot & _).
  exists q. eexists. split; [exact Hq|]. split; [exact Hplot|].
  cbn [gca]. now rewrite (proj2 (annotate_frame _ _)).
Qed.

(** C7.  The frame has 1200 rows.  Its 99.5th percentile [q] is the value
    0.005 of the way from the 1194th to the 1195th smallest purchase amount
    of the whole frame ([s] is the sorted column), not of the rows sampled for
    the strip plot.  The figure is drawn and is the one written to chart.png;
    whenever [q] is positive its vertical axis ends at exactly [q * 1.05]. *)
Theorem ylim_top_is_quantile (G : Generator) (R : Renderer) (e : entropy G)
    (fs : FileSystem) :
  exists q s fig fs',
    List.length (df G e) = 1200%nat /\
    Permutation s (map purchase_amount (df G e)) /\
    StronglySorted Qle s /\
    Pandas.quantile (995 # 1000) (map purchase_amount (df G e)) = Some q /\
    (q == nth 1193 s 0 + (nth 1194 s 0 - nth 1193 s 0) * (5 # 1000))%Q /\
    plot G e (df G e) = Some fig /\
    main G R e fs = Some fs' /\
    option_map drawn_from (fs' "chart.png") = Some fig /\
    ((0 < q)%Q -> snd (ylim (gca fig)) = (q * (105 # 100))%Q).
Proof.
  destruct (plot_ylim G e) as (q & fig & Hq & Hplot & Hy).
  destruct (df_quantile G e) as (q' & Hq' & Hint).
  rewrite Hq in Hq'. injection Hq' as <-.
  destruct (sorted_amounts G e) as (Hperm & Hsorted & _).
  exists q, (Pandas.sort_values (map purchase_amount (df G e))), fig. eexists.
  split; [apply df_counts|]. split; [exact Hperm|]. split; [exact Hsorted|].
  split; [exact Hq|]. split; [exact Hint|]. split; [exact Hplot|].
  split; [unfold main; rewrite Hplot; reflexivity|]. split; [reflexivity|].
  intros Hpos. rewrite Hy.
  rewrite view_limits_regular; [reflexivity|].
  now apply (df_quantile_range G e).
Qed.

(** On the linear congruential generator the percentile is positive and
    the axis ends at 1.05 times it. *)
Lemma ylim_top_is_quantile_witness :
  exists q fig,
    Pandas.quantile (995 # 1000)
      (map purchase_amount (df Instances.lcg 0%Z)) = Some q /\
    (0 < q)%Q /\
    plot Instances.lcg 0%Z (df Instances.lcg 0%Z) = Some fig /\
    snd (ylim (gca fig)) = (q * (105 # 100))%Q.
Proof.
  destruct (ylim_top_is_quantile Instances.lcg Instances.snug 0%Z (fun _ => None))
    as (q & s & fig & fs' & _ & _ & _ & Hq & _ & Hplot & _ & _ & Htop).
  exists q, fig.
  assert (Hpos : (0 < q)%Q).
  { vm_compute in Hq. injection Hq as <-. reflexivity. }
  split; [exact Hq|]. split; [exact Hpos|]. split; [exact Hplot | exact (Htop Hpos)].
Defined.



(** When the percentile is 0 the call is [set_ylim(0, 0)] and matplotlib
    widens the axis to (-0.05, 0.05). *)
Lemma ylim_when_percentile_is_zero (G : Generator) (e : entropy G) :
  exists q fig,
    Pandas.quantile (995 # 1000) (map purchase_amount (df G e)) = Some q /\
    plot G e (df G e) = Some fig /\
    ((q == 0)%Q -> ylim (gca fig) = ((- (5 # 100))%Q, (5 # 100)%Q)).
Proof.
  destruct (plot_ylim G e) as (q & fig & Hq & Hplot & Hy).
  exists q, fig. split; [exact Hq|]. split; [exact Hplot|].
  intros E. rewrite Hy. pose proof singular_bound_pos.
  apply view_limits_singular; rewrite E; [discriminate | exact singular_bound_pos].
Qed.

(** ** Median annotations *)

Section AnnotationFacts.
Variable G : Generator.

Lemma annotate_texts meds ax :
  texts (Chart.annotate meds ax) =
  texts ax ++ flat_map (annotation_of meds) (Seaborn.enumerate 0 (map fst meds)).
Proof.
  unfold Chart.annotate.
  generalize (Seaborn.enumerate 0 (map fst meds)). intros l. revert ax.
  induction l as [|[i seg] l IH]; intros ax; simpl.
  - now rewrite app_nil_r.
  - rewrite IH. unfold annotation_of at 2. simpl.
    destruct (lookup seg meds) as [m|]; simpl; [|reflexivity].
    now rewrite <- app_assoc.
Qed.

Lemma group_length seg (d : list Row) :
  List.length (map snd (filter (fun r => String.eqb (fst r) seg) (xy d))) = count seg d.
Proof.
  unfold count, xy. rewrite length_map.
  induction d as [|r d IH]; simpl; [reflexivity|].
  destruct (String.eqb (segment r) seg); simpl; now rewrite IH.
Qed.

Lemma segment_median_some e seg size :
  count seg (df G e) = S size -> exists m, segment_median seg (df G e) = Some m.
Proof.
  intros H. apply median_some. intros E.
  apply (f_equal (@List.length Q)) in E. rewrite group_length, H in E. discriminate E.
Qed.

Lemma df_levels e :
  Seaborn.categorical_order (map fst (xy (df G e))) =
    ["Low value"; "Mid value"; "High value"] /\
  Pandas.sort_keys (Pandas.unique (map fst (xy (df G e)))) =
    ["High value"; "Low value"; "Mid value"].
Proof.
  rewrite xy_keys, df_segment_column. split; now vm_compute.
Qed.

(** The group-by medians: sorted by label. *)
Lemma medians_df e :
  exists ml mm mh,
    segment_median "Low value" (df G e) = Some ml /\
    segment_median "Mid value" (df G e) = Some mm /\
    segment_median "High value" (df G e) = Some mh /\
    medians (df G e) =
      [("High value", Rounding.round mh 2); ("Low value", Rounding.round ml 2);
       ("Mid value", Rounding.round mm 2)].
Proof.
  destruct (df_counts G e) as (Cl & Cm & Ch & _).
  destruct (segment_median_some e _ Cl) as [ml Hl].
  destruct (segment_median_some e _ Cm) as [mm Hm].
  destruct (segment_median_some e _ Ch) as [mh Hh].
  exists ml, mm, mh. repeat split; try assumption.
  unfold medians, Pandas.groupby_median, Pandas.groupby.
  rewrite (proj2 (df_levels e)). cbn [map flat_map fst snd].
  fold (segment_median "High value" (df G e)).
  fold (segment_median "Low value" (df G e)).
  fold (segment_median "Mid value" (df G e)).
  rewrite Hl, Hm, Hh. reflexivity.
Qed.

End AnnotationFacts.

(** C5, what the script draws.  The boxes stand in order of appearance
    ("Low value" at 0, "Mid value" at 1, "High value" at 2), each with the
    median of its own segment.  The annotations follow the sorted group-by
    index instead ("High value", "Low value", "Mid value"): the text at
    position 0 shows the "High value" median, the text at 1 the "Low value"
    median and the text at 2 the "Mid value" median, each at 1.02 times the
    value it shows. *)
Theorem annotations_follow_sorted_index (G : Generator) (e : entropy G) :
  exists fig ml mm mh,
    plot G e (df G e) = Some fig /\
    segment_median "Low value" (df G e) = Some ml /\
    segment_median "Mid value" (df G e) = Some mm /\
    segment_median "High value" (df G e) = Some mh /\
    map (fun b => (box_x b, box_label b, box_median b)) (boxes (gca fig)) =
      [(0%nat, "Low value", Some ml); (1%nat, "Mid value", Some mm);
       (2%nat, "High value", Some mh)] /\
    texts (gca fig) =
      [ {| text_x := 0; text_y := (Rounding.round mh 2 * (102 # 100))%Q;
           text_s := "Median: $" ++ format_amount (Rounding.round mh 2) |};
        {| text_x := 1; text_y := (Rounding.round ml 2 * (102 # 100))%Q;
           text_s := "Median: $" ++ format_amount (Rounding.round ml 2) |};
        {| text_x := 2; text_y := (Rounding.round mm 2 * (102 # 100))%Q;
           text_s := "Median: $" ++ format_amount (Rounding.round mm 2) |} ].
Proof.
  destruct (plot_df G e) as (q & ax & Hq & Hplot & Hboxes & Htexts).
  destruct (medians_df G e) as (ml & mm & mh & Hl & Hm & Hh & Hmeds).
  eexists. exists ml, mm, mh.
  split; [exact Hplot|]. repeat (split; [assumption|]). split.
  - cbn [gca]. rewrite (proj1 (annotate_frame _ _)). cbn [set_ylim boxes].
    rewrite Hboxes. unfold Seaborn.boxplot, add_boxes. cbn [boxes new_axes app categories].
    rewrite (proj1 (df_levels G e)).
    change (update_units ["Low value"; "Mid value"; "High value"] [])
      with ["Low value"; "Mid value"; "High value"].
    cbn [flat_map Seaborn.index_of index_of String.eqb Ascii.eqb Bool.eqb option_map
         app map fst snd box_x box_label box_median].
    fold (segment_median "High value" (df G e)).
    fold (segment_median "Low value" (df G e)).
    fold (segment_median "Mid value" (df G e)).
    now rewrite Hl, Hm, Hh.
  - cbn [gca]. rewrite annotate_texts. cbn [set_ylim texts]. rewrite Htexts, Hmeds.
    reflexivity.
Qed.

(** On the linear congruential generator: the box at position 0 is the
    "Low value" box, whose median is 15.05, and the text drawn at position 0
    reads 39.17, the "High value" median. *)
Lemma annotation_at_low_value_box :
  option_map
    (fun fig =>
       (map (fun b => (box_label b, option_map (fun m => format_amount m) (box_median b)))
          (firstn 1 (boxes (gca fig))),
        map (fun t => (text_x t, text_s t)) (firstn 1 (texts (gca fig)))))
    (plot Instances.lcg 0%Z (df Instances.lcg 0%Z)) =
  Some ([("Low value", Some "15.05")], [(0%nat, "Median: $39.17")]).
Proof. vm_compute. reflexivity. Qed.

(** ** The saved file *)

(** C9, what the script writes.  The run succeeds and changes the file
    system at chart.png only, replacing whatever was there by a PNG image of
    the 8 x 8 inch figure.  Because [savefig] is called with
    [bbox_inches="tight"], the pixel size of that image is not 8 * 64: it is
    the tight bounding box of the artists, padded by 0.1 inch on each side,
    times 64. *)
Theorem saved_size_follows_tight_bbox (G : Generator) (R : Renderer)
    (e : entropy G) (fs : FileSystem) :
  exists fig fs' img,
    plot G e (df G e) = Some fig /\
    figsize fig = (8, 8)%Q /\
    main G R e fs = Some fs' /\
    fs' "chart.png" = Some img /\
    (forall p, p <> "chart.png" -> fs' p = fs p) /\
    format img = PNG /\
    raster (format img) = true /\
    drawn_from img = fig /\
    width_px img = Qfloor ((fst (get_tightbbox R fig) + (2 # 10)) * 64) /\
    height_px img = Qfloor ((snd (get_tightbbox R fig) + (2 # 10)) * 64).
Proof.
  destruct (plot_df G e) as (q & ax & Hq & Hplot & _).
  eexists. eexists. eexists.
  split; [exact Hplot|]. split; [reflexivity|].
  split; [unfold main; rewrite Hplot; reflexivity|].
  unfold savefig, write. cbn [String.eqb Ascii.eqb Bool.eqb].
  split; [reflexivity|]. split.
  - intros p Hp. apply String.eqb_neq in Hp. now rewrite Hp.
  - destruct (get_tightbbox R _) as [w h]. repeat split.
Qed.

(** With a backend whose tight bounding box is 7.5 by 7.7 inches the
    image is 492 by 505 pixels. *)
Lemma saved_size_snug :
  option_map
    (fun fs' => option_map (fun img => (width_px img, height_px img)) (fs' "chart.png"))
    (main Instances.lcg Instances.snug 0%Z (fun _ => None)) =
  Some (Some (492%Z, 505%Z)).
Proof. vm_compute. reflexivity. Qed.

(** Saving the whole figure, without [bbox_inches], gives 512 by 512
    pixels with every backend. *)
Lemma saved_size_whole_figure (R : Renderer) (ax : Axes) (fs : FileSystem) :
  option_map (fun img => (width_px img, height_px img))
    (savefig R "chart.png" 64 None {| figsize := (8, 8)%Q; gca := ax |} fs "chart.png") =
  Some (512%Z, 512%Z).
Proof. reflexivity. Qed.

(* ------------------------------------------------------------------ *)
(** * Further properties of the script *)


(* ------------------------------------------------------------------ *)
(** * Further properties of the script *)

(** ** The row loop on any table of segments *)

Section LoopFacts.
Variable G : Generator.

Lemma drawn_log_blocks items g :
  Forall2 (fun sp sd => fst sd = fst sp /\ List.length (block (fst sd) (snd sd)) = n (snd sp))
    items (drawn_log G items g).
Proof.
  revert g. induction items as [|[seg params] rest IH]; intros g; simpl; [constructor|].
  pose proof (draw_segment_lengths G params g) as Hlen.
  destruct (draw_segment G params g) as [d g']. simpl in *.
  constructor; [|apply IH]. simpl. split; [reflexivity|].
  unfold block. rewrite length_map. apply inflate_length; tauto.
Qed.

Lemma blocks_column items l :
  Forall2 (fun sp sd => fst sd = fst sp /\ List.length (block (fst sd) (snd sd)) = n (snd sp))
    items l ->
  map segment (flat_map (fun sd => block (fst sd) (snd sd)) l) =
  flat_map (fun sp => repeat (fst sp) (n (snd sp))) items.
Proof.
  induction 1 as [|[seg p] [seg' d] items l [E L] _ IH]; simpl in *; [reflexivity|].
  subst seg'. rewrite map_app, IH, block_segments, L. reflexivity.
Qed.

End LoopFacts.

(** X1.  Whatever the table of segments, the starting generator state and the
    rows already collected, the loop keeps the collected rows and appends to
    them, for each segment in table order, exactly [n] rows carrying that
    segment's label: the frame grows by the sum of the configured counts. *)
Theorem loop_appends_configured_rows (G : Generator)
    (items : list (string * Params)) (g : bitgen G) (rows : list Row) :
  map segment (fst (loop G items g rows)) =
    map segment rows ++ flat_map (fun sp => repeat (fst sp) (n (snd sp))) items /\
  firstn (List.length rows) (fst (loop G items g rows)) = rows /\
  List.length (fst (loop G items g rows)) =
    (List.length rows + list_sum (map (fun sp => n (snd sp)) items))%nat.
Proof.
  assert (Hcol : map segment (fst (loop G items g rows)) =
            map segment rows ++ flat_map (fun sp => repeat (fst sp) (n (snd sp))) items).
  { rewrite loop_rows, map_app. f_equal. apply blocks_column, drawn_log_blocks. }
  split; [exact Hcol|]. split.
  - rewrite loop_rows. rewrite firstn_app, Nat.sub_diag, firstn_all. simpl.
    now rewrite app_nil_r.
  - rewrite <- (length_map segment), Hcol, length_app, length_map. f_equal.
    clear. induction items as [|[seg p] rest IH]; simpl; [reflexivity|].
    now rewrite length_app, repeat_length, IH.
Qed.

(** X2.  The loop over a table split in two is the loop over the first part
    followed by the loop over the second part, started from the generator
    state and the rows the first part leaves; so the rows of earlier segments
    do not depend on the segments that follow. *)
Theorem loop_app (G : Generator) (items1 items2 : list (string * Params))
    (g : bitgen G) (rows : list Row) :
  loop G (items1 ++ items2) g rows =
    loop G items2 (snd (loop G items1 g rows)) (fst (loop G items1 g rows)) /\
  firstn (List.length (fst (loop G items1 g rows))) (fst (loop G (items1 ++ items2) g rows)) =
    fst (loop G items1 g rows).
Proof.
  assert (H : loop G (items1 ++ items2) g rows =
              loop G items2 (snd (loop G items1 g rows)) (fst (loop G items1 g rows))).
  { revert g rows. induction items1 as [|[seg p] rest IH]; intros g rows; simpl.
    - reflexivity.
    - destruct (draw_segment G p g) as [d g']. apply IH. }
  split; [exact H|]. rewrite H.
  rewrite (loop_rows G items2). rewrite firstn_app, Nat.sub_diag, firstn_all. simpl.
  now rewrite app_nil_r.
Qed.

(** ** Rounding to a number of decimals *)

(** X4.  Rounding is monotone: it never reverses the order of two values. *)
Theorem round_mono (x y : Q) (ndigits : nat) :
  (x <= y)%Q -> (Rounding.round x ndigits <= Rounding.round y ndigits)%Q.
Proof.
  intros Hxy. pose proof (pow10_pos ndigits) as Hp. unfold Rounding.round.
  set (p := inject_Z (Rounding.pow10 ndigits)) in *.
  apply Qmult_le_compat_r; [|apply Qlt_le_weak, Qinv_lt_0_compat; exact Hp].
  rewrite <- Zle_Qle. apply rint_mono.
  apply Qmult_le_compat_r; [exact Hxy | lra].
Qed.

Lemma round_mono_witness :
  ((1 # 3) <= (2 # 3))%Q /\ (Rounding.round (1 # 3) 2 <= Rounding.round (2 # 3) 2)%Q.
Proof.
  split; [unfold Qle; simpl; lia | apply round_mono; unfold Qle; simpl; lia].
Defined.

(** ** The rows above the axis *)

(** X6.  The upper axis limit does what line 69 sets it for: the 99.5th
    percentile [q] of the frame is never negative, the upper limit is neither
    below the lower limit nor below [q], and of the 1200 rows at most 6 (0.5%)
    have a purchase amount above it; every other row fits under the top of the
    axis. *)
Theorem ylim_top_covers (G : Generator) (e : entropy G) :
  exists q fig,
    Pandas.quantile (995 # 1000) (map purchase_amount (df G e)) = Some q /\
    plot G e (df G e) = Some fig /\
    (0 <= q)%Q /\
    (fst (ylim (gca fig)) <= snd (ylim (gca fig)))%Q /\
    (q <= snd (ylim (gca fig)))%Q /\
    (List.length
       (filter (fun r => negb (Qle_bool (purchase_amount r) (snd (ylim (gca fig)))))
          (df G e)) <= 6)%nat.
Proof.
  destruct (plot_ylim G e) as (q & fig & Hq & Hplot & Hy).
  destruct (df_quantile_range G e Hq) as [Hq0 _].
  assert (Hlen : List.length (map purchase_amount (df G e)) = 1200%nat)
    by (rewrite length_map; apply df_counts).
  assert (Hp : (995 # 1000 <= 1)%Q) by (unfold Qle; simpl; lia).
  destruct (@quantile_above _ _ _ Hq Hp) as (_ & _ & Hcount).
  rewrite Hlen in Hcount.
  change (Z.to_nat (Qfloor (inject_Z (Z.of_nat 1200 - 1) * (995 # 1000)))) with 1193%nat
    in Hcount.
  change (1200 - 1194)%nat with 6%nat in Hcount.
  assert (Hlim : (fst (ylim (gca fig)) <= snd (ylim (gca fig)))%Q /\
                 (q <= snd (ylim (gca fig)))%Q).
  { rewrite Hy. pose proof singular_bound_pos as Hb.
    destruct (Qlt_le_dec (q * (105 # 100)) singular_bound) as [Hs | Hs].
    - rewrite view_limits_singular; [|lra | exact Hs]. cbn [fst snd].
      split; [discriminate|].
      apply Qle_trans with singular_bound; [lra|].
      unfold singular_bound, float_tiny, Qle. vm_compute. discriminate.
    - rewrite view_limits_regular by exact Hs. cbn [fst snd]. split; lra. }
  exists q, fig. split; [exact Hq|]. split; [exact Hplot|]. split; [exact Hq0|].
  split; [apply Hlim|]. split; [apply Hlim|].
  etransitivity; [|exact Hcount].
  rewrite <- filter_length_map with (g := purchase_amount)
    (f := fun x => negb (Qle_bool x q)).
  apply filter_length_impl. intros r Hr.
  apply negb_true_iff in Hr. apply negb_true_iff.
  destruct (Qle_bool (purchase_amount r) q) eqn:E; [|reflexivity].
  apply Qle_bool_iff in E.
  assert (Hle : (purchase_amount r <= snd (ylim (gca fig)))%Q)
    by (apply Qle_trans with q; [exact E | apply Hlim]).
  apply Qle_bool_iff in Hle. congruence.
Qed.

(** ** Levels, groups and labels *)

Section LevelFacts.

Lemma existsb_eqb_In k seen : existsb (String.eqb k) seen = true <-> In k seen.
Proof.
  rewrite existsb_exists. split.
  - intros (x & Hx & E). apply String.eqb_eq in E. now subst.
  - intros H. exists k. split; [exact H | apply String.eqb_refl].
Qed.

Lemma unique_from keys seen :
  let r := fold_left
             (fun seen k => if existsb (String.eqb k) seen then seen else seen ++ [k])
             keys seen in
  (forall k, In k r <-> In k seen \/ In k keys) /\ (NoDup seen -> NoDup r).
Proof.
  revert seen. induction keys as [|a keys IH]; intros seen; simpl.
  - split; [intros k; tauto | tauto].
  - destruct (existsb (String.eqb a) seen) eqn:E.
    + apply existsb_eqb_In in E. destruct (IH seen) as [Hin Hnd].
      split; [|exact Hnd]. intros k. rewrite Hin.
      split; [tauto|]. intros [H | [<- | H]]; tauto.
    + assert (Ha : ~ In a seen)
        by (intros H; apply existsb_eqb_In in H; congruence).
      destruct (IH (seen ++ [a])) as [Hin Hnd].
      split.
      * intros k. rewrite Hin, in_app_iff. simpl. tauto.
      * intros Hs. apply Hnd. apply NoDup_app; [exact Hs | repeat constructor; simpl; tauto |].
        intros x Hx [<- | []]. contradiction.
Qed.

(** [unique] keeps every value once. *)
Lemma unique_spec keys :
  (forall k, In k (Pandas.unique keys) <-> In k keys) /\ NoDup (Pandas.unique keys).
Proof.
  destruct (unique_from keys []) as [Hin Hnd]. split.
  - intros k. unfold Pandas.unique. rewrite Hin. simpl. tauto.
  - apply Hnd. constructor.
Qed.



Lemma index_of_In k l :
  In k l -> exists i, index_of k l = Some i /\ (i < List.length l)%nat.
Proof.
  induction l as [|y t IH]; simpl; [tauto|]. intros H.
  destruct (String.eqb k y) eqn:E.
  - exists 0%nat. split; [reflexivity | lia].
  - apply String.eqb_neq in E.
    destruct H as [H | H]; [congruence|].
    destruct (IH H) as (i & Hi & Hlt). exists (S i). rewrite Hi. split; [reflexivity | lia].
Qed.

Lemma lookup_In k (meds : list (string * Q)) :
  In k (map fst meds) -> exists v, lookup k meds = Some v.
Proof.
  induction meds as [|[k' v] t IH]; simpl; [tauto|]. intros H.
  destruct (String.eqb k k') eqn:E; [eexists; reflexivity|].
  apply String.eqb_neq in E. destruct H as [H | H]; [congruence | now apply IH].
Qed.

Lemma flat_map_singletons (A B : Type) (f : A -> list B) l :
  (forall x, In x l -> exists y, f x = [y]) ->
  List.length (flat_map f l) = List.length l.
Proof.
  induction l as [|x l IH]; intros H; simpl; [reflexivity|].
  destruct (H x (or_introl eq_refl)) as [y ->]. simpl. f_equal.
  apply IH. intros z Hz. apply H. now right.
Qed.

Lemma annotations_of_keys meds l :
  incl l (map fst meds) ->
  forall i,
    map text_x (flat_map (annotation_of meds) (Seaborn.enumerate i l)) =
    seq i (List.length l).
Proof.
  induction l as [|k l IH]; intros Hl i; simpl; [reflexivity|].
  unfold annotation_of at 1. simpl.
  destruct (lookup_In k meds (Hl k (or_introl eq_refl))) as [v ->]. simpl.
  f_equal. apply IH. intros x Hx. apply Hl. now right.
Qed.

Lemma annotate_rest meds ax :
  points (Chart.annotate meds ax) = points ax /\
  title (Chart.annotate meds ax) = title ax /\
  xlabel (Chart.annotate meds ax) = xlabel ax /\
  ylabel (Chart.annotate meds ax) = ylabel ax.
Proof.
  unfold Chart.annotate.
  generalize (Seaborn.enumerate 0 (map fst meds)). intros l. revert ax.
  induction l as [|[i seg] l IH]; intros ax; simpl; [tauto|].
  destruct (lookup seg meds) as [m|]; [|apply IH].
  repeat split; (etransitivity; [apply IH | reflexivity]).
Qed.

End LevelFacts.

(** X7.  Whatever Series of medians it is given, the annotation loop draws
    exactly one text per index entry, at the positions 0, 1, 2, ... in index
    order (the lookup by key never misses), and it changes nothing else of the
    axes: boxes, markers, limits, title and axis labels stay as they were. *)
Theorem annotate_one_text_per_key (meds : list (string * Q)) (ax : Axes) :
  List.length (texts (Chart.annotate meds ax)) =
    (List.length (texts ax) + List.length meds)%nat /\
  firstn (List.length (texts ax)) (texts (Chart.annotate meds ax)) = texts ax /\
  map text_x (skipn (List.length (texts ax)) (texts (Chart.annotate meds ax))) =
    seq 0 (List.length meds) /\
  boxes (Chart.annotate meds ax) = boxes ax /\
  points (Chart.annotate meds ax) = points ax /\
  ylim (Chart.annotate meds ax) = ylim ax /\
  title (Chart.annotate meds ax) = title ax /\
  xlabel (Chart.annotate meds ax) = xlabel ax /\
  ylabel (Chart.annotate meds ax) = ylabel ax.
Proof.
  pose proof (annotations_of_keys meds (incl_refl (map fst meds)) 0) as Hx.
  rewrite length_map in Hx.
  destruct (annotate_frame meds ax) as [Hb Hy].
  destruct (annotate_rest meds ax) as (Hp & Ht & Hxl & Hyl).
  rewrite annotate_texts.
  split; [|split; [|split]]; [| | |tauto].
  - rewrite length_app. f_equal.
    rewrite <- (length_map text_x), Hx. apply length_seq.
  - rewrite firstn_app, Nat.sub_diag, firstn_all. simpl. now rewrite app_nil_r.
  - rewrite skipn_app, Nat.sub_diag, skipn_all. exact Hx.
Qed.


(** ** The strip plot *)

Lemma sample_In (G : Generator) (A : Type) frac random_state (e : entropy G)
    (rows : list A) :
  Forall (fun r => In r rows) (Pandas.sample G frac random_state e rows).
Proof.
  unfold Pandas.sample. apply Forall_flat_map, Forall_forall. intros i _.
  destruct (nth_error rows i) as [r|] eqn:E; [|constructor].
  repeat constructor. exact (nth_error_In _ _ E).
Qed.

Lemma sample_length (G : Generator) (A : Type) (frac : Q) (random_state : option Z)
    (e : entropy G) (rows : list A) :
  (frac <= 1)%Q ->
  List.length (Pandas.sample G frac random_state e rows) =
    Z.to_nat (Rounding.rint (frac * inject_Z (Z.of_nat (List.length rows)))).
Proof.
  intros Hfrac. unfold Pandas.sample.
  set (len := List.length rows).
  set (k := Z.to_nat (Rounding.rint (frac * inject_Z (Z.of_nat len)))).
  set (st := match random_state with
             | Some z => legacy_seed G z
             | None => legacy_global G e
             end).
  assert (Hk : (k <= len)%nat).
  { assert (H : (Rounding.rint (frac * inject_Z (Z.of_nat len)) <= Z.of_nat len)%Z).
    { rewrite <- (rint_inject_Z (Z.of_nat len)) at 2. apply rint_mono.
      assert (H0 : (0 <= inject_Z (Z.of_nat len))%Q)
        by (change 0%Q with (inject_Z 0); rewrite <- Zle_Qle; lia).
      nra. }
    unfold k. lia. }
  pose proof (choice_without_replacement_lt G st Hk) as Hlt.
  rewrite flat_map_singletons; [now apply choice_without_replacement_length|].
  intros i Hi. rewrite Forall_forall in Hlt. specialize (Hlt i Hi). fold len in Hlt.
  destruct (nth_error rows i) as [r|] eqn:E; [eexists; reflexivity|].
  apply nth_error_None in E. unfold len in Hlt. lia.
Qed.

Lemma df_labels (G : Generator) (e : entropy G) r :
  In r (df G e) -> In (segment r) ["Low value"; "Mid value"; "High value"].
Proof.
  intros Hr. apply (in_map segment) in Hr. rewrite df_segment_column in Hr.
  simpl. repeat (apply in_app_or in Hr; destruct Hr as [Hr | Hr]);
    apply repeat_spec in Hr; rewrite Hr; tauto.
Qed.

Section StripFacts.
Variable G : Generator.

Lemma legacy_draws_length (A : Type) (step : legacy G -> A * legacy G) size s :
  List.length (fst (legacy_draws G step size s)) = size.
Proof.
  revert s. induction size as [|k IH]; intros s; simpl; [reflexivity|].
  destruct (step s) as [x s1]. specialize (IH s1).
  destruct (legacy_draws G step k s1) as [xs s2]. simpl in *. now rewrite IH.
Qed.

Lemma legacy_draws_Forall (A : Type) (P : A -> Prop) (step : legacy G -> A * legacy G) :
  (forall s, P (fst (step s))) ->
  forall size s, Forall P (fst (legacy_draws G step size s)).
Proof.
  intros Hstep size. induction size as [|k IH]; intros s; simpl; [constructor|].
  pose proof (Hstep s) as Hx. destruct (step s) as [x s1]. specialize (IH s1).
  destruct (legacy_draws G step k s1) as [xs s2]. simpl in *. now constructor.
Qed.

Lemma map2_In (A B C : Type) (f : A -> B -> C) xs ys z :
  In z (map2 f xs ys) -> exists x y, In x xs /\ In y ys /\ z = f x y.
Proof.
  revert ys. induction xs as [|x xs IH]; intros [|y ys] H; simpl in H; try tauto.
  destruct H as [<- | H].
  - exists x, y. simpl. tauto.
  - destruct (IH ys H) as (x' & y' & Hx & Hy & E). exists x', y'. simpl. tauto.
Qed.

(** Registering labels the axis already knows changes nothing. *)
Lemma update_units_known data cats :
  (forall k, In k data -> In k cats) -> update_units data cats = cats.
Proof.
  unfold update_units. induction data as [|k data IH]; intros H; simpl; [reflexivity|].
  assert (E : existsb (String.eqb k) cats = true)
    by (apply existsb_eqb_In, H; now left).
  rewrite E. apply IH. intros k' Hk'. apply H. now right.
Qed.

(** The markers of one level: one per row of the level, each at the
    height of its row and within [jlim] of the level's position. *)
Lemma strip_level_spec jlim cats data level st i :
  (0 < jlim)%Q -> index_of level cats = Some i ->
  let ps := fst (Seaborn.strip_level G jlim cats data level st) in
  List.length ps = List.length (filter (fun r => String.eqb (fst r) level) data) /\
  Forall (fun p => (exists r, In r data /\ fst r = level /\ snd p = snd r) /\
                   (inject_Z (Z.of_nat i) - jlim <= fst p /\
                    fst p <= inject_Z (Z.of_nat i) + jlim)%Q) ps.
Proof.
  intros Hj Hi. unfold Seaborn.strip_level, Seaborn.index_of. rewrite Hi.
  set (ys := map snd (filter (fun r => String.eqb (fst r) level) data)).
  assert (Hys : forall y, In y ys -> exists r, In r data /\ fst r = level /\ y = snd r).
  { intros y Hy. unfold ys in Hy. apply in_map_iff in Hy. destruct Hy as (r & <- & Hr).
    apply filter_In in Hr. destruct Hr as [Hr E]. apply String.eqb_eq in E.
    exists r. tauto. }
  assert (Hlen : List.length ys =
                 List.length (filter (fun r => String.eqb (fst r) level) data))
    by (unfold ys; apply length_map).
  destruct (1 <? List.length ys)%nat.
  - pose proof (legacy_draws_length (legacy_uniform1 G (- jlim) jlim)
                  (List.length ys) st) as Hjl.
    assert (Hlt : (- jlim < jlim)%Q) by lra.
    pose proof (legacy_draws_Forall
                  (fun j => - jlim <= j /\ j < jlim)%Q
                  (legacy_uniform1 G (- jlim) jlim)
                  (fun s => @legacy_uniform1_range G (- jlim) jlim s Hlt)
                  (List.length ys) st) as Hjr.
    unfold legacy_uniform.
    destruct (legacy_draws G (legacy_uniform1 G (- jlim) jlim) (List.length ys) st)
      as [js st'].
    cbn [fst] in *. split.
    + rewrite map2_length by exact Hjl. congruence.
    + apply Forall_forall. intros p Hp.
      apply map2_In in Hp. destruct Hp as (j & y & Hjin & Hy & ->).
      rewrite Forall_forall in Hjr. specialize (Hjr j Hjin). cbn [fst snd].
      destruct (Hys y Hy) as (r & Hr & El & Ey).
      split; [exists r; tauto | lra].
  - cbn [fst]. split; [now rewrite length_map|].
    apply Forall_forall. intros p Hp.
    apply in_map_iff in Hp. destruct Hp as (y & <- & Hy). cbn [fst snd].
    destruct (Hys y Hy) as (r & Hr & El & Ey).
    split; [exists r; tauto | lra].
Qed.

Lemma strip_levels_spec jlim cats data levels :
  (0 < jlim)%Q ->
  (forall l, In l levels -> exists i, index_of l cats = Some i) ->
  forall st,
    List.length (Seaborn.strip_levels G jlim cats data levels st) =
      list_sum (map (fun l => List.length
                                (filter (fun r => String.eqb (fst r) l) data)) levels) /\
    Forall (fun p => exists r i,
                  In r data /\ index_of (fst r) cats = Some i /\ snd p = snd r /\
                  (inject_Z (Z.of_nat i) - jlim <= fst p /\
                   fst p <= inject_Z (Z.of_nat i) + jlim)%Q)
      (Seaborn.strip_levels G jlim cats data levels st).
Proof.
  intros Hj. induction levels as [|l rest IH]; intros Hl st; simpl.
  - split; [reflexivity | constructor].
  - destruct (Hl l (or_introl eq_refl)) as [i Hi].
    pose proof (strip_level_spec cats data l st Hj Hi) as Hs. cbv zeta in Hs.
    destruct (Seaborn.strip_level G jlim cats data l st) as [ps st'].
    cbn [fst] in Hs. destruct Hs as [Hlen Hps].
    destruct (IH (fun l' H => Hl l' (or_intror H)) st') as [IHlen IHps].
    split.
    + rewrite length_app, Hlen, IHlen. reflexivity.
    + apply Forall_app. split; [|exact IHps].
      eapply Forall_impl; [|exact Hps].
      intros p [(r & Hr & El & Ey) Hx]. exists r, i. rewrite El. tauto.
Qed.

(** Distinct levels that cover the labels of the data split its rows. *)
Lemma groups_partition (data : list (string * Q)) levels :
  NoDup levels -> (forall r, In r data -> In (fst r) levels) ->
  list_sum (map (fun l => List.length
                            (filter (fun r => String.eqb (fst r) l) data)) levels) =
  List.length data.
Proof.
  intros Hnd. induction data as [|a data IH]; intros Hcov.
  - simpl. induction levels; simpl; [reflexivity | now rewrite IHlevels; inversion Hnd].
  - assert (Hone : list_sum (map (fun l => if String.eqb (fst a) l then 1 else 0)%nat
                                levels) = 1%nat).
    { pose proof (Hcov a (or_introl eq_refl)) as Hin. clear IH Hcov.
      induction Hnd as [|l levels Hl Hnd IH]; [destruct Hin|]. simpl.
      destruct (String.eqb (fst a) l) eqn:E.
      - apply String.eqb_eq in E. subst l. f_equal.
        clear IH Hin Hnd. induction levels as [|l' levels IH]; simpl; [reflexivity|].
        destruct (String.eqb (fst a) l') eqn:E'.
        + apply String.eqb_eq in E'. subst. exfalso. apply Hl. now left.
        + apply IH. intros H. apply Hl. now right.
      - apply String.eqb_neq in E. destruct Hin as [Hin | Hin]; [congruence|].
        now apply IH. }
    assert (Hsplit : forall ls,
               list_sum (map (fun l => List.length
                                (filter (fun r => String.eqb (fst r) l) (a :: data))) ls) =
               (list_sum (map (fun l => if String.eqb (fst a) l then 1 else 0)%nat ls) +
                list_sum (map (fun l => List.length
                                (filter (fun r => String.eqb (fst r) l) data)) ls))%nat).
    { assert (Hcons : forall x l, list_sum (x :: l) = (x + list_sum l)%nat)
        by reflexivity.
      induction ls as [|l ls IHls]; [reflexivity|].
      cbn [map]. rewrite !Hcons, IHls. cbn [filter].
      destruct (String.eqb (fst a) l); cbn [List.length]; lia. }
    rewrite Hsplit, Hone, IH; [reflexivity|].
    intros r Hr. apply Hcov. now right.
Qed.

End StripFacts.

Lemma plot_df_axes (G : Generator) (e : entropy G) :
  exists q,
    plot G e (df G e) =
      Some {| figsize := (8, 8)%Q;
              gca := Chart.annotate (medians (df G e))
                       (set_ylim 0 (q * (105 # 100))
                          (set_ylabel "Purchase amount (USD)"
                             (set_xlabel ""
                                (set_title
                                   "Distribution of Purchase Amounts by Customer Segment"
                                   (Seaborn.stripplot G
                                      (xy (Pandas.sample G (25 # 100) (Some 1%Z) e (df G e)))
                                      (25 # 100) (legacy_global G e)
                                      (Seaborn.boxplot (xy (df G e)) new_axes)))))) |}.
Proof.
  destruct (quantile_some (995 # 1000) (df_not_nil G e)) as [q Hq].
  exists q. unfold plot. now rewrite Hq.
Qed.

Lemma annotate_categories meds ax :
  categories (Chart.annotate meds ax) = categories ax.
Proof.
  unfold Chart.annotate.
  generalize (Seaborn.enumerate 0 (map fst meds)). intros l. revert ax.
  induction l as [|[i seg] l IH]; intros ax; simpl; [reflexivity|].
  destruct (lookup seg meds) as [m|]; [|apply IH].
  etransitivity; [apply IH | reflexivity].
Qed.

(** The box plot of the frame registers the three labels in order of
    appearance and draws each box at the position of its label. *)
Lemma boxplot_df (G : Generator) (e : entropy G) :
  categories (Seaborn.boxplot (xy (df G e)) new_axes) =
    ["Low value"; "Mid value"; "High value"] /\
  map (fun b => (box_x b, box_label b)) (boxes (Seaborn.boxplot (xy (df G e)) new_axes)) =
    [(0%nat, "Low value"); (1%nat, "Mid value"); (2%nat, "High value")].
Proof.
  unfold Seaborn.boxplot, add_boxes. cbn [boxes categories new_axes app].
  rewrite (proj1 (df_levels G e)). split; reflexivity.
Qed.

(** X10.  The subsample drawn for the strip plot has 300 rows and the
    saved figure carries exactly 300 strip markers, one per sampled row.  The
    strip plot leaves the categorical axis as the box plot set it up, with the
    boxes of "Low value", "Mid value" and "High value" at 0, 1 and 2; every
    marker is at the purchase amount of a sampled row and, whatever the
    jitter, within 0.25 of the position of the box of that row's segment. *)
Theorem strip_markers (G : Generator) (e : entropy G) :
  exists fig,
    plot G e (df G e) = Some fig /\
    List.length (Pandas.sample G (25 # 100) (Some 1%Z) e (df G e)) = 300%nat /\
    List.length (points (gca fig)) = 300%nat /\
    categories (gca fig) = ["Low value"; "Mid value"; "High value"] /\
    map (fun b => (box_x b, box_label b)) (boxes (gca fig)) =
      [(0%nat, "Low value"); (1%nat, "Mid value"); (2%nat, "High value")] /\
    Forall
      (fun p => exists r i,
           In r (Pandas.sample G (25 # 100) (Some 1%Z) e (df G e)) /\
           In r (df G e) /\
           index_of (segment r) ["Low value"; "Mid value"; "High value"] = Some i /\
           snd p = purchase_amount r /\
           (inject_Z (Z.of_nat i) - (25 # 100) <= fst p /\
            fst p <= inject_Z (Z.of_nat i) + (25 # 100))%Q)
      (points (gca fig)).
Proof.
  destruct (plot_df_axes G e) as [q Hplot].
  destruct (boxplot_df G e) as [Hcats Hboxes].
  set (smp := Pandas.sample G (25 # 100) (Some 1%Z) e (df G e)) in *.
  set (bp := Seaborn.boxplot (xy (df G e)) new_axes) in *.
  assert (HS : List.length smp = 300%nat).
  { assert (Hf : (25 # 100 <= 1)%Q) by (unfold Qle; simpl; lia).
    pose proof (sample_length G (Some 1%Z) e (df G e) Hf) as Hlen.
    fold smp in Hlen. rewrite Hlen.
    rewrite (proj2 (proj2 (proj2 (df_counts G e)))). now vm_compute. }
  assert (HSin : forall r, In r smp -> In r (df G e)).
  { pose proof (sample_In G (25 # 100) (Some 1%Z) e (df G e)) as H.
    rewrite Forall_forall in H. exact H. }
  destruct (unique_spec (map fst (xy smp))) as [Hin Hnd].
  set (levels := Seaborn.categorical_order (map fst (xy smp))) in *.
  assert (Hknown : forall k, In k levels ->
                             In k ["Low value"; "Mid value"; "High value"]).
  { intros k Hk. apply Hin in Hk. rewrite xy_keys in Hk.
    apply in_map_iff in Hk. destruct Hk as (r & <- & Hr).
    apply (df_labels G e). now apply HSin. }
  assert (Hunits : update_units levels (categories bp) =
                   ["Low value"; "Mid value"; "High value"]).
  { rewrite Hcats. now apply update_units_known. }
  assert (Hjl : (0 < 25 # 100)%Q) by reflexivity.
  assert (Hidx : forall l, In l levels ->
            exists i, index_of l ["Low value"; "Mid value"; "High value"] = Some i).
  { intros l Hl. destruct (index_of_In _ _ (Hknown l Hl)) as (i & Hi & _).
    now exists i. }
  destruct (strip_levels_spec G
              ["Low value"; "Mid value"; "High value"] (xy smp) levels Hjl Hidx
              (legacy_global G e)) as [Hlen Hpts].
  assert (Hpoints : points (Seaborn.stripplot G (xy smp) (25 # 100) (legacy_global G e) bp)
            = Seaborn.strip_levels G (25 # 100)
                ["Low value"; "Mid value"; "High value"] (xy smp) levels
                (legacy_global G e)).
  { unfold Seaborn.stripplot, add_points. cbn [points]. fold levels. rewrite Hunits.
    unfold bp, Seaborn.boxplot, add_boxes. reflexivity. }
  eexists. split; [exact Hplot|]. split; [exact HS|]. cbn [gca].
  rewrite (proj1 (annotate_rest _ _)), annotate_categories, (proj1 (annotate_frame _ _)).
  cbn [set_ylim set_ylabel set_xlabel set_title points categories boxes].
  rewrite Hpoints.
  split; [|split; [|split]].
  - rewrite Hlen, groups_partition; [unfold xy; now rewrite length_map | exact Hnd |].
    intros r Hr. apply Hin. now apply in_map.
  - unfold Seaborn.stripplot, add_points. cbn [categories]. fold levels. exact Hunits.
  - unfold Seaborn.stripplot, add_points. cbn [boxes]. exact Hboxes.
  - eapply Forall_impl; [|exact Hpts].
    intros p (r & i & Hr & Hi & Ey & Hx).
    unfold xy in Hr. apply in_map_iff in Hr. destruct Hr as (r0 & <- & Hr0).
    exists r0, i. cbn [fst snd] in *. repeat split; try tauto. now apply HSin.
Qed.

(** The jitter comes from the process-wide generator, which no call of
    the script seeds: on the linear congruential generator two processes
    started with different entropy draw the first strip marker at different
    horizontal positions, while the frame they plot is the same. *)
Lemma jitter_follows_entropy :
  df Instances.lcg (2 ^ 50)%Z = df Instances.lcg (2 ^ 51)%Z /\
  option_map (fun fig => option_map (fun p => Qred (fst p)) (hd_error (points (gca fig))))
    (plot Instances.lcg (2 ^ 50)%Z (df Instances.lcg (2 ^ 50)%Z)) <>
  option_map (fun fig => option_map (fun p => Qred (fst p)) (hd_error (points (gca fig))))
    (plot Instances.lcg (2 ^ 51)%Z (df Instances.lcg (2 ^ 51)%Z)).
Proof.
  split; [reflexivity|]. vm_compute. discriminate.
Qed.
